(** * mfctraces: the manifest-driven page reader of [8192.c]

    A shallow embedding of [main] of [8192.c].  The program has a single
    function; its local buffers, the standard-library calls it makes and
    its two nested loops are modelled one by one, in the order of the
    source.  What the C standard leaves undefined (a null stream handed to
    [fscanf], a write past the end of a block, a string without terminator)
    is the result [Undefined]; the indeterminate contents of a block fresh
    from [malloc] are a component of the world the program runs in. *)

From Stdlib Require Import Ascii String DecimalString DecimalZ.
From Stdlib Require Import List ZArith Lia Bool Arith.
Import ListNotations.

Local Open Scope list_scope.

(** ** Bytes, blocks and C strings *)

Definition NUL : ascii := Ascii.zero.

(** A block of memory: the bytes of a [malloc]ed region or of an array. *)
Definition buffer := list ascii.

(** A string literal of the source, as its bytes (terminator left out). *)
Definition lit (s : string) : list ascii := list_ascii_of_string s.

(** The C string a block holds: the bytes before its first NUL.  A block
    without NUL holds no string (reading it runs past its end). *)
Fixpoint cstr (b : buffer) : option (list ascii) :=
  match b with
  | [] => None
  | c :: b' =>
      if Ascii.eqb c NUL then Some []
      else match cstr b' with
           | Some s => Some (c :: s)
           | None => None
           end
  end.

(** Write the bytes [s] and a terminator into [b] from offset [p] on; the
    rest of the block is kept.  [None] when the write does not fit. *)
Definition store (b : buffer) (p : nat) (s : list ascii) : option buffer :=
  if p + length s + 1 <=? length b
  then Some (firstn p b ++ s ++ NUL :: skipn (p + length s + 1) b)
  else None.

(** [strcat(dst, src)]: [src] is appended where the string in [dst] ends. *)
Definition strcat (dst : buffer) (src : list ascii) : option buffer :=
  match cstr dst with
  | Some d => store dst (length d) src
  | None => None
  end.

(** ** Results *)

(** A computation of the model returns a value, meets undefined behaviour,
    or exhausts the fuel given to the [while] loop. *)
Inductive result (A : Type) : Type :=
| Ok (a : A)
| Undefined
| OutOfFuel.

Arguments Ok {A} a.
Arguments Undefined {A}.
Arguments OutOfFuel {A}.

Definition bind {A B : Type} (r : result A) (k : A -> result B) : result B :=
  match r with
  | Ok a => k a
  | Undefined => Undefined
  | OutOfFuel => OutOfFuel
  end.

(** An operation on blocks that is undefined when it does not fit. *)
Definition defined {A : Type} (o : option A) : result A :=
  match o with
  | Some a => Ok a
  | None => Undefined
  end.

Notation "x <- c ;; k" := (bind c (fun x => k))
  (at level 61, c at next level, right associativity).

(** ** The world the program runs in *)

Record world := {
  (** contents of [./trace_map.csv]; [None] when [fopen] returns NULL *)
  manifest : option (list ascii);
  (** the files [fopen(path, "r")] can open, by path, with their contents *)
  files : list ascii -> option (list ascii);
  (** byte [j] of the [n]-th block handed out by [malloc], before any write *)
  uninit : nat -> nat -> ascii
}.

(** The [n]-th block of [size] bytes as [malloc] returns it. *)
Definition malloc (w : world) (n size : nat) : buffer :=
  map (uninit w n) (seq 0 size).

(** ** Formatted input *)

(** [isspace] in the C locale. *)
Definition isspace (c : ascii) : bool :=
  let n := nat_of_ascii c in
  (n =? 32) || ((9 <=? n) && (n <=? 13)).

Fixpoint skip_ws (s : list ascii) : list ascii :=
  match s with
  | c :: s' => if isspace c then skip_ws s' else s
  | [] => []
  end.

(** The longest prefix without white space, and what follows it. *)
Fixpoint token (s : list ascii) : list ascii * list ascii :=
  match s with
  | c :: s' =>
      if isspace c then ([], s)
      else let (t, r) := token s' in (c :: t, r)
  | [] => ([], [])
  end.

(** One [%s] directive: white space is skipped, then a token is taken.
    [None] is an input failure (end of file before any byte of a token). *)
Definition scan_s (input : list ascii) : option (list ascii * list ascii) :=
  match token (skip_ws input) with
  | ([], _) => None
  | (t, r) => Some (t, r)
  end.

(** [fscanf(trace_file, "%s %s", folder, file_format)] on the rest of the
    manifest: the new read position and the two blocks.  A directive that
    fails stops the call and leaves the remaining blocks as they were; the
    return value is not looked at by the caller.  A token of 100 bytes or
    more is written past the end of its block. *)
Definition fscanf_ss (input : list ascii) (folder file_format : buffer)
  : result (list ascii * buffer * buffer) :=
  match scan_s input with
  | None => Ok ([], folder, file_format)
  | Some (t1, r1) =>
      folder' <- defined (store folder 0 t1) ;;
      match scan_s r1 with
      | None => Ok ([], folder', file_format)
      | Some (t2, r2) =>
          file_format' <- defined (store file_format 0 t2) ;;
          Ok (r2, folder', file_format')
      end
  end.

(** Size of a page block, [malloc(sizeof(char)*8192)], and field width of
    the [%8192c] directive. *)
Definition PAGE : nat := 8192.

(** [fscanf(file, "%8192c", page_as_string)]: up to 8192 bytes of the file
    are stored from the start of the block, no terminator is added, and the
    bytes of the block that were not reached keep their values. *)
Definition fscanf_8192c (data : list ascii) (page : buffer) : buffer :=
  let got := firstn PAGE data in
  got ++ skipn (length got) page.

(** [sprintf(iter_string, "%d", iter)] into [char iter_string[10]]. *)
Definition decimal (n : Z) : list ascii :=
  list_ascii_of_string (NilZero.string_of_int (Z.to_int n)).

Definition sprintf_d (n : Z) : option (list ascii) :=
  let d := decimal n in
  if length d + 1 <=? 10 then Some d else None.

(** ** What the program does to its surroundings *)

(** [Printf s]: the bytes [s] are written to [stdout].  [Fopen path ok]: a
    page file is probed with [fopen(path, "r")], which returns a stream
    ([ok]) or NULL.  [Fscanf path page]: the page file [path] has been read
    with [fscanf], and [page] is the page block after the call. *)
Inductive event :=
| Printf (s : list ascii)
| Fopen (path : list ascii) (ok : bool)
| Fscanf (path : list ascii) (page : buffer).

(** What can be read off a trace. *)
Definition probes (tr : list event) : list (list ascii * bool) :=
  flat_map (fun e => match e with Fopen p ok => [(p, ok)] | _ => [] end) tr.

Definition reads (tr : list event) : list (list ascii * buffer) :=
  flat_map (fun e => match e with Fscanf p b => [(p, b)] | _ => [] end) tr.

Definition printed (tr : list event) : list (list ascii) :=
  flat_map (fun e => match e with Printf x => [x] | _ => [] end) tr.

(** Size of the blocks of [folder], [file_format] and [fname]. *)
Definition NAME : nat := 100.

Definition LF : ascii := ascii_of_nat 10.

Definition INT_MAX : Z := 2147483647.

(** The part of the machine state that outlives an iteration. *)
Record state := {
  nalloc : nat;                  (** blocks handed out by [malloc] so far *)
  trace : list event;            (** events so far, oldest first *)
  leaked : list (nat * buffer)   (** blocks no pointer refers to any more,
                                     never passed to [free], with their
                                     contents *)
}.

Definition emit (e : event) (st : state) : state :=
  {| nalloc := nalloc st; trace := trace st ++ [e]; leaked := leaked st |}.

Definition alloc (st : state) : state :=
  {| nalloc := S (nalloc st); trace := trace st; leaked := leaked st |}.

Definition leak (id : nat) (b : buffer) (st : state) : state :=
  {| nalloc := nalloc st; trace := trace st; leaked := leaked st ++ [(id, b)] |}.

(** [for (int m = 0; m < 8192; m++) { page_as_string = 0; }]: every round
    assigns the null pointer to the pointer variable [page_as_string]
    ([Some id] is the address of block [id], [None] the null pointer).  No
    round writes to the block. *)
Fixpoint clear_loop (rounds : nat) (page_as_string : option nat) : option nat :=
  match rounds with
  | O => page_as_string
  | S r => clear_loop r None
  end.

(** The name built in [fname] by the six [strcat]s of one round of the
    [while] loop, starting from the block as [malloc] returned it. *)
Definition build_fname (fname folder file_format : buffer) (iter : Z)
  : result buffer :=
  fname <- defined (strcat fname (lit "./")) ;;
  f <- defined (cstr folder) ;;
  fname <- defined (strcat fname f) ;;
  fname <- defined (strcat fname (lit "/")) ;;
  ff <- defined (cstr file_format) ;;
  fname <- defined (strcat fname ff) ;;
  fname <- defined (strcat fname (lit "_")) ;;
  iter_string <- defined (sprintf_d iter) ;;
  defined (strcat fname iter_string).

(** The body of [if (file != NULL) { ... }] up to the end of the clearing
    loop; [iter++] is left to the caller. *)
Definition read_page (w : world) (path data : list ascii) (st : state) : state :=
  let id := nalloc st in
  let page := fscanf_8192c data (malloc w id PAGE) in
  let st := emit (Fscanf path page) (alloc st) in
  let st := emit (Printf (nth 3 page NUL :: lit "  " ++ [LF])) st in
  match clear_loop PAGE (Some id) with
  | Some _ => st
  | None => leak id page st
  end.

(** [while (keep_reading) { ... }] of one record, from counter [iter] on.
    A round allocates [fname], builds and prints the name, and probes it;
    [keep_reading = 0] ends the loop.  [fclose(file)] and [free(fname)]
    change nothing that is looked at later and leave no event. *)
Fixpoint scan (fuel : nat) (w : world) (folder file_format : buffer)
  (iter : Z) (st : state) : result state :=
  match fuel with
  | O => OutOfFuel
  | S fuel' =>
      let fname := malloc w (nalloc st) NAME in
      let st := alloc st in
      fname <- build_fname fname folder file_format iter ;;
      path <- defined (cstr fname) ;;
      let st := emit (Printf (path ++ lit " " ++ [LF])) st in
      match files w path with
      | Some data =>
          let st := read_page w path data (emit (Fopen path true) st) in
          if (iter <? INT_MAX)%Z
          then scan fuel' w folder file_format (iter + 1)%Z st
          else Undefined
      | None => Ok (emit (Fopen path false) st)
      end
  end.

(** [b[k] = c]; undefined when [k] is not an index of the block. *)
Fixpoint set_nth (k : nat) (c : ascii) (b : buffer) : option buffer :=
  match b, k with
  | [], _ => None
  | _ :: b', O => Some (c :: b')
  | x :: b', S k' =>
      match set_nth k' c b' with
      | Some b'' => Some (x :: b'')
      | None => None
      end
  end.

(** [for (int k = 0; k < 100; k++) { folder[k] = 0; file_format[k] = 0; }]
    on one of the two blocks: [b[k] = 0] for [k] from [from] on, [rounds]
    times. *)
Fixpoint zero_loop (rounds from : nat) (b : buffer) : option buffer :=
  match rounds with
  | O => Some b
  | S r =>
      match set_nth from NUL b with
      | Some b' => zero_loop r (S from) b'
      | None => None
      end
  end.

(** The variables of [main] that live across the rounds of the [for] loop.
    [trace_file] is the stream: [None] for the null pointer, [Some rest]
    for an open stream with [rest] still to read. *)
Record locals := {
  trace_file : option (list ascii);
  folder : buffer;
  file_format : buffer
}.

(** One round of [for (int i = 0; i < 400; i++)]. *)
Definition round (fuel : nat) (w : world) (l : locals) (st : state)
  : result (locals * state) :=
  input <- defined (trace_file l) ;;
  r <- fscanf_ss input (folder l) (file_format l) ;;
  let '(rest, fo, ff) := r in
  st <- scan fuel w fo ff 1%Z st ;;
  fo <- defined (zero_loop NAME 0 fo) ;;
  ff <- defined (zero_loop NAME 0 ff) ;;
  Ok ({| trace_file := Some rest; folder := fo; file_format := ff |}, st).

Fixpoint rounds (n fuel : nat) (w : world) (l : locals) (st : state)
  : result (locals * state) :=
  match n with
  | O => Ok (l, st)
  | S n' =>
      r <- round fuel w l st ;;
      rounds n' fuel w (fst r) (snd r)
  end.

Definition initial : state := {| nalloc := 0; trace := []; leaked := [] |}.

(** [main]: the stream is opened and not tested, the two name blocks are
    allocated, the loop makes its 400 rounds, and the end of [main] is
    reached, which returns 0. *)
Definition main (fuel : nat) (w : world) : result (Z * state) :=
  let l := {| trace_file := manifest w;
              folder := malloc w 0 NAME;
              file_format := malloc w 1 NAME |} in
  r <- rounds 400 fuel w l (alloc (alloc initial)) ;;
  Ok (0%Z, snd r).

(** What a run shows from outside: the value [main] returns, the number of
    pages read and the number of names probed. *)
Definition summary (r : result (Z * state)) : option (Z * nat * nat) :=
  match r with
  | Ok (status, st) =>
      Some (status, length (reads (trace st)), length (probes (trace st)))
  | _ => None
  end.

(** ** Worlds to run the program in *)

Definition zeroed : nat -> nat -> ascii := fun _ _ => NUL.

Definition no_files : list ascii -> option (list ascii) := fun _ => None.

Fixpoint lookup (fs : list (list ascii * list ascii)) (path : list ascii)
  : option (list ascii) :=
  match fs with
  | [] => None
  | (p, d) :: fs' =>
      if list_eq_dec ascii_dec p path then Some d else lookup fs' path
  end.

(** ** Vocabulary of the properties *)

Definition no_nul (s : list ascii) : Prop := Forall (fun c => c <> NUL) s.

(** The name the documentation gives to page [n] of a record. *)
Definition page_name (f s : list ascii) (n : Z) : list ascii :=
  lit "./" ++ f ++ lit "/" ++ s ++ lit "_" ++ decimal n.

(** The numeral fits [iter_string] and the name fits [fname], terminators
    included, and [iter++] stays within [int]. *)
Definition fits (f s : list ascii) (n : Z) : Prop :=
  length (decimal n) + 1 <= 10 /\ length (page_name f s n) + 1 <= NAME /\
  (n < INT_MAX)%Z.

(** Every block comes from [malloc] with a first byte of zero, so that it
    holds the empty string. *)
Definition clean (w : world) : Prop := forall id, uninit w id 0 = NUL.

(** The events of a page that was opened: the read and the byte printed. *)
Definition page_events (w : world) (id : nat) (path data : list ascii)
  : list event :=
  let page := fscanf_8192c data (malloc w id PAGE) in
  [Fscanf path page; Printf (nth 3 page NUL :: lit "  " ++ [LF])].

(** The state after a round that found its file. *)
Definition after_hit (w : world) (path data : list ascii) (st : state) : state :=
  read_page w path data
    (emit (Fopen path true) (emit (Printf (path ++ lit " " ++ [LF])) (alloc st))).

(** The state after the round that did not. *)
Definition after_miss (path : list ascii) (st : state) : state :=
  emit (Fopen path false) (emit (Printf (path ++ lit " " ++ [LF])) (alloc st)).

(** The files [datas] are the pages [n], [n+1], ... of the record [(f, s)],
    the next number names no file, and every name involved fits. *)
Fixpoint pages_from (w : world) (f s : list ascii) (datas : list (list ascii))
  (n : Z) : Prop :=
  match datas with
  | [] => fits f s n /\ files w (page_name f s n) = None
  | d :: ds =>
      fits f s n /\ files w (page_name f s n) = Some d /\
      pages_from w f s ds (n + 1)
  end.

(** The state in which the [while] loop leaves such a record. *)
Fixpoint scan_result (w : world) (f s : list ascii) (datas : list (list ascii))
  (n : Z) (st : state) : state :=
  match datas with
  | [] => after_miss (page_name f s n) st
  | d :: ds => scan_result w f s ds (n + 1) (after_hit w (page_name f s n) d st)
  end.

(** The events of that loop, when its first [malloc] is number [id]. *)
Fixpoint record_trace (w : world) (f s : list ascii) (datas : list (list ascii))
  (n : Z) (id : nat) : list event :=
  match datas with
  | [] =>
      [Printf (page_name f s n ++ lit " " ++ [LF]);
       Fopen (page_name f s n) false]
  | d :: ds =>
      Printf (page_name f s n ++ lit " " ++ [LF])
      :: Fopen (page_name f s n) true
      :: page_events w (S id) (page_name f s n) d
      ++ record_trace w f s ds (n + 1) (S (S id))
  end.

(** ** Sample worlds *)

(** A name block with the string [s] at its start and zeros after it. *)
Definition block_of (s : list ascii) : buffer :=
  s ++ repeat NUL (NAME - length s).

(** Record [d s] with pages 1, 2 and 4: page 3 is missing. *)
Definition gap_world : world :=
  {| manifest := Some (lit "d s" ++ [LF]);
     files := lookup [(lit "./d/s_1", lit "page one");
                      (lit "./d/s_2", lit "page two");
                      (lit "./d/s_4", lit "page four")];
     uninit := zeroed |}.

(** No manifest can be opened. *)
Definition no_manifest_world : world :=
  {| manifest := None; files := no_files; uninit := zeroed |}.

(** Every block comes from [malloc] with the byte [X] in front and zeros
    after it; page 1 of record [d s] exists. *)
Definition stale_world : world :=
  {| manifest := Some (lit "d s");
     files := lookup [(lit "./d/s_1", lit "page one")];
     uninit := fun _ j => if j =? 0 then "X"%char else NUL |}.

(** ** Manifests *)

(** A field of a record as the documentation has it: a token of at most 99
    bytes, not empty, without white space and without NUL. *)
Definition word (t : list ascii) : Prop :=
  t <> [] /\ Forall (fun c => isspace c = false) t /\ no_nul t /\
  length t < NAME.

(** Only white space. *)
Definition gap (ws : list ascii) : Prop :=
  Forall (fun c => isspace c = true) ws.

(** A record together with the contents of its pages 1, 2, ... *)
Definition job : Type := (list ascii * list ascii) * list (list ascii).

(** The record the rounds work on once the manifest is used up: both name
    blocks hold the empty string. *)
Definition blank (datas : list (list ascii)) : job := (([], []), datas).

(** A job the loop can work on with [fuel] rounds of the [while] loop: its
    pages are the files of the world, and there are fewer than [fuel]. *)
Definition good (w : world) (fuel : nat) (j : job) : Prop :=
  pages_from w (fst (fst j)) (snd (fst j)) (snd j) 1 /\
  length (snd j) < fuel.

(** The state after the [while] loops of the jobs, one after the other. *)
Fixpoint run_jobs (w : world) (jobs : list job) (st : state) : state :=
  match jobs with
  | [] => st
  | j :: js =>
      run_jobs w js (scan_result w (fst (fst j)) (snd (fst j)) (snd j) 1 st)
  end.

(** Their events, when the first [malloc] is number [id]. *)
Fixpoint jobs_trace (w : world) (jobs : list job) (id : nat) : list event :=
  match jobs with
  | [] => []
  | j :: js =>
      record_trace w (fst (fst j)) (snd (fst j)) (snd j) 1 id
      ++ jobs_trace w js (id + (2 * length (snd j) + 1))
  end.

(** What can follow a token: the end of the text, or white space. *)
Definition token_end (rest : list ascii) : Prop :=
  match rest with
  | [] => True
  | c :: _ => isspace c = true
  end.

(** The text [input] holds the records [rs] and nothing else: fields are
    words, white space separates them, and white space may come before the
    first and after the last.  A last folder without stem counts as a
    record with the empty stem. *)
Inductive holds_records : list ascii -> list (list ascii * list ascii) -> Prop :=
| holds_none (ws : list ascii) :
    gap ws -> holds_records ws []
| holds_lone (ws f ws' : list ascii) :
    gap ws -> word f -> gap ws' ->
    holds_records (ws ++ f ++ ws') [(f, [])]
| holds_record (ws f sep s rest : list ascii)
    (rs : list (list ascii * list ascii)) :
    gap ws -> word f -> gap sep -> sep <> [] -> word s ->
    token_end rest -> holds_records rest rs ->
    holds_records (ws ++ f ++ sep ++ s ++ rest) ((f, s) :: rs).

(** The variables of [main] between two rounds: the stream stands before
    the records [rs], and both name blocks hold the empty string. *)
Definition ready (l : locals) (rs : list (list ascii * list ascii)) : Prop :=
  exists input,
    trace_file l = Some input /\ holds_records input rs /\
    cstr (folder l) = Some [] /\ length (folder l) = NAME /\
    cstr (file_format l) = Some [] /\ length (file_format l) = NAME.

(** ** Statements that are compared with the program *)

(** The rounds after the last record are skipped: the run consists of the
    scans of the records of the manifest and of nothing else. *)
Definition remaining_rounds_skipped (w : world) (fuel : nat)
  (jobs : list job) : Prop :=
  exists st, main fuel w = Ok (0%Z, st) /\ trace st = jobs_trace w jobs 2.

(** The events of a round that probes [.//_1] and nothing else. *)
Definition blank_probe : list event :=
  [Printf (lit ".//_1 " ++ [LF]); Fopen (lit ".//_1") false].

(** The rounds after the last record probe [.//_1] and nothing else. *)
Definition remaining_rounds_probe_once (w : world) (fuel : nat)
  (jobs : list job) : Prop :=
  exists st,
    main fuel w = Ok (0%Z, st) /\
    trace st = jobs_trace w jobs 2
               ++ concat (repeat blank_probe (400 - length jobs)).

(** The one record of [gap_world], with the pages the scanner reaches. *)
Definition gap_jobs : list job :=
  [((lit "d", lit "s"), [lit "page one"; lit "page two"])].

(** One record without pages, and a file [_1] in the working directory. *)
Definition stray_world : world :=
  {| manifest := Some (lit "d s" ++ [LF]);
     files := lookup [(lit ".//_1", lit "stray")];
     uninit := zeroed |}.

Definition stray_jobs : list job := [((lit "d", lit "s"), [])].

(** The events of one [while] loop are well reported: every probe comes
    right after the line that prints its path, and every page read is
    followed by one line with the byte at offset 3 of the page block,
    which is the byte at offset 3 of the file when the file has one. *)
Inductive reported (w : world) : list event -> Prop :=
| reported_miss (path : list ascii) :
    reported w [Printf (path ++ lit " " ++ [LF]); Fopen path false]
| reported_hit (path data : list ascii) (page : buffer) (b : ascii)
    (tr : list event) :
    files w path = Some data ->
    nth_error page 3 = Some b ->
    (forall c, nth_error data 3 = Some c -> b = c) ->
    reported w tr ->
    reported w (Printf (path ++ lit " " ++ [LF])
                :: Fopen path true
                :: Fscanf path page
                :: Printf (b :: lit "  " ++ [LF])
                :: tr).

(** The scenario of the documentation: records [data alpha] and
    [other beta], three pages of 8192 bytes for the first, none for the
    second. *)
Definition scenario_world : world :=
  {| manifest := Some (lit "data alpha" ++ [LF] ++ lit "other beta");
     files := lookup [(lit "./data/alpha_1", repeat "a"%char PAGE);
                      (lit "./data/alpha_2", repeat "b"%char PAGE);
                      (lit "./data/alpha_3", repeat "c"%char PAGE)];
     uninit := zeroed |}.

Definition scenario_jobs : list job :=
  [((lit "data", lit "alpha"),
    [repeat "a"%char PAGE; repeat "b"%char PAGE; repeat "c"%char PAGE]);
   ((lit "other", lit "beta"), [])].

(** ** Further sample worlds *)

(** Every block comes from [malloc] with a zero in front and the byte [Z]
    everywhere else; page 1 of record [d s] has two bytes. *)
Definition short_world : world :=
  {| manifest := Some (lit "d s" ++ [LF]);
     files := lookup [(lit "./d/s_1", lit "ab")];
     uninit := fun _ j => if j =? 0 then NUL else "Z"%char |}.

(** An empty manifest, and two blocks that [malloc] hands out with the
    strings [old] and [junk] in them; every later block starts with a
    zero. *)
Definition leftover_world : world :=
  {| manifest := Some [];
     files := no_files;
     uninit := fun id j =>
       nth j (match id with
              | 0 => lit "old"
              | 1 => lit "junk"
              | _ => []
              end) NUL |}.

(** ** Further vocabulary *)

(** What [fscanf] does to the two name blocks when it reads the record
    [(f, s)]: the folder is stored, and the stem too unless it is missing. *)
Definition stored (f s : list ascii) (fo ff : buffer)
  : result (buffer * buffer) :=
  fo' <- defined (store fo 0 f) ;;
  match s with
  | [] => Ok (fo', ff)
  | _ :: _ => ff' <- defined (store ff 0 s) ;; Ok (fo', ff')
  end.

(** The same world with another text in the manifest. *)
Definition with_manifest (w : world) (input : list ascii) : world :=
  {| manifest := Some input; files := files w; uninit := uninit w |}.

(** A manifest of [n] lines [d s]. *)
Definition lines (n : nat) : list ascii :=
  concat (repeat (lit "d s" ++ [LF]) n).

(** 401 records, none of which has a page. *)
Definition long_world : world :=
  {| manifest := Some (lines 401); files := no_files; uninit := zeroed |}.

(** ** The events of a scan in any world *)

(** The events of a [while] loop that has come to its end, from counter [n]
    on, when its first [malloc] is number [id].  Each round takes a block
    for [fname], which holds some string [g] as it comes from [malloc], and
    appends the name of page [n] to it; a round that opens its file takes a
    second block, for the page. *)
Inductive scan_events (w : world) (f s : list ascii)
  : Z -> nat -> list event -> Prop :=
| scan_events_miss (n : Z) (id : nat) (g : list ascii) :
    cstr (malloc w id NAME) = Some g ->
    files w (g ++ page_name f s n) = None ->
    scan_events w f s n id
      [Printf ((g ++ page_name f s n) ++ lit " " ++ [LF]);
       Fopen (g ++ page_name f s n) false]
| scan_events_hit (n : Z) (id : nat) (g data : list ascii)
    (tr : list event) :
    cstr (malloc w id NAME) = Some g ->
    files w (g ++ page_name f s n) = Some data ->
    scan_events w f s (n + 1) (S (S id)) tr ->
    scan_events w f s n id
      (Printf ((g ++ page_name f s n) ++ lit " " ++ [LF])
       :: Fopen (g ++ page_name f s n) true
       :: page_events w (S id) (g ++ page_name f s n) data ++ tr).

(** The events of a scan, read for the page blocks: every page file that
    was opened is read into a block of 8192 bytes that starts with the
    first 8192 bytes of the file (all of it when the file is shorter), one
    line is printed for it, and the scan goes on to the next name; the
    scan ends with a name that cannot be opened. *)
Inductive page_reads (w : world) : list event -> Prop :=
| page_reads_miss (path : list ascii) :
    page_reads w [Printf (path ++ lit " " ++ [LF]); Fopen path false]
| page_reads_hit (path data : list ascii) (page : buffer)
    (line : list ascii) (tr : list event) :
    files w path = Some data ->
    length page = PAGE ->
    firstn (Nat.min PAGE (length data)) page = firstn PAGE data ->
    (PAGE <= length data -> page = firstn PAGE data) ->
    (length data <= PAGE -> firstn (length data) page = data) ->
    page_reads w tr ->
    page_reads w (Printf (path ++ lit " " ++ [LF])
                  :: Fopen path true
                  :: Fscanf path page
                  :: Printf line
                  :: tr).

(** The events of a scan, read for the byte printed: every page read is
    followed by one line with one byte, [b], and when the file has at least
    four bytes, [b] is its byte at offset 3. *)
Inductive fourth_byte_reported (w : world) : list event -> Prop :=
| fourth_byte_miss (path : list ascii) :
    fourth_byte_reported w
      [Printf (path ++ lit " " ++ [LF]); Fopen path false]
| fourth_byte_hit (path data : list ascii) (page : buffer) (b : ascii)
    (tr : list event) :
    files w path = Some data ->
    (4 <= length data -> nth_error data 3 = Some b) ->
    fourth_byte_reported w tr ->
    fourth_byte_reported w (Printf (path ++ lit " " ++ [LF])
                            :: Fopen path true
                            :: Fscanf path page
                            :: Printf (b :: lit "  " ++ [LF])
                            :: tr).

(** As [reported], but the byte printed for a page is a byte of its file,
    the one at offset 3, for every page that is read. *)
Inductive reported_from_file (w : world) : list event -> Prop :=
| reported_from_file_miss (path : list ascii) :
    reported_from_file w
      [Printf (path ++ lit " " ++ [LF]); Fopen path false]
| reported_from_file_hit (path data : list ascii) (page : buffer) (b : ascii)
    (tr : list event) :
    files w path = Some data ->
    nth_error data 3 = Some b ->
    reported_from_file w tr ->
    reported_from_file w (Printf (path ++ lit " " ++ [LF])
                          :: Fopen path true
                          :: Fscanf path page
                          :: Printf (b :: lit "  " ++ [LF])
                          :: tr).

(** The events of a scan, read for pages of fewer than four bytes: the
    block of such a page holds the file and, after it, what [malloc] left
    in the block, and the byte printed is the byte that [malloc] left at
    offset 3. *)
Inductive short_pages_print_stale (w : world) : list event -> Prop :=
| short_pages_miss (path : list ascii) :
    short_pages_print_stale w
      [Printf (path ++ lit " " ++ [LF]); Fopen path false]
| short_pages_hit (path data : list ascii) (page : buffer) (b : ascii)
    (tr : list event) :
    files w path = Some data ->
    (length data < 4 ->
     exists id, page = data ++ skipn (length data) (malloc w id PAGE) /\
                b = uninit w id 3) ->
    short_pages_print_stale w tr ->
    short_pages_print_stale w (Printf (path ++ lit " " ++ [LF])
                               :: Fopen path true
                               :: Fscanf path page
                               :: Printf (b :: lit "  " ++ [LF])
                               :: tr).

(** Names of the pages [n], [n+1], ... of a record, each after some string
    of its own. *)
Inductive numbered (f s : list ascii) : Z -> list (list ascii) -> Prop :=
| numbered_nil (n : Z) : numbered f s n []
| numbered_cons (n : Z) (g : list ascii) (l : list (list ascii)) :
    numbered f s (n + 1) l ->
    numbered f s n ((g ++ page_name f s n) :: l).

(** ** Worlds with a reused block *)

(** What the allocator of the C library leaves in the first bytes of a
    block that was freed and is handed out again. *)
Definition stale_bytes : list ascii := lit "sUUU" ++ [ascii_of_nat 5].

(** Record [d s] with pages 1 and 2.  The blocks of [folder],
    [file_format] and of the first [fname] start with a zero; every later
    block starts with [stale_bytes]. *)
Definition reused_world : world :=
  {| manifest := Some (lit "d s" ++ [LF]);
     files := lookup [(lit "./d/s_1", lit "page one");
                      (lit "./d/s_2", lit "page two")];
     uninit := fun id j => if id <? 3 then NUL else nth j stale_bytes NUL |}.

(** A first record of two fields of 60 bytes, then record [d s] with a
    page. *)
Definition oversized_world : world :=
  {| manifest := Some (repeat "a"%char 60 ++ lit " " ++ repeat "b"%char 60
                       ++ [LF] ++ lit "d s" ++ [LF]);
     files := lookup [(lit "./d/s_1", lit "page one")];
     uninit := zeroed |}.

(** ** The rounds of a run in any world *)

(** The events of the rounds of the outer loop, round by round: round [i]
    has scanned record [i] of [rs], from page 1 on. *)
Definition rounds_scanned (w : world) (rs : list (list ascii * list ascii))
  (trs : list (list event)) : Prop :=
  Forall2 (fun r tr => exists id, scan_events w (fst r) (snd r) 1 id tr)
          rs trs.

(** * Properties *)

(** ** C strings in blocks *)

Lemma cstr_app_nul (s : list ascii) (rest : buffer) :
  no_nul s -> cstr (s ++ NUL :: rest) = Some s.
Proof.
  induction 1 as [|c s Hc Hs IH]; simpl.
  - reflexivity.
  - destruct (Ascii.eqb_spec c NUL) as [E|_]; [contradiction|].
    now rewrite IH.
Qed.

Lemma cstr_split (b : buffer) (s : list ascii) :
  cstr b = Some s -> no_nul s /\ exists rest, b = s ++ NUL :: rest.
Proof.
  revert s; induction b as [|c b IH]; simpl; intros s H; [discriminate|].
  destruct (Ascii.eqb_spec c NUL) as [E|N].
  - injection H as <-. subst c. split; [constructor | now exists b].
  - destruct (cstr b) as [s'|]; [|discriminate].
    injection H as <-. destruct (IH s' eq_refl) as [Hs [rest ->]].
    split; [now constructor | now exists rest].
Qed.

Lemma no_nul_app (s t : list ascii) : no_nul s -> no_nul t -> no_nul (s ++ t).
Proof. intros Hs Ht. apply Forall_app. now split. Qed.

(** A terminated store at the end of the string a block holds appends to
    that string and keeps the size of the block. *)
Lemma strcat_spec (dst : buffer) (d s : list ascii) :
  cstr dst = Some d -> no_nul s -> length d + length s + 1 <= length dst ->
  exists dst', strcat dst s = Some dst' /\
               cstr dst' = Some (d ++ s) /\ length dst' = length dst.
Proof.
  intros Hd Hs Hfit. unfold strcat, store. rewrite Hd.
  destruct (cstr_split _ _ Hd) as [Hnd [rest ->]].
  apply Nat.leb_le in Hfit as Hfit'. rewrite Hfit'.
  eexists; split; [reflexivity|].
  rewrite firstn_app, firstn_all, Nat.sub_diag, firstn_O, app_nil_r.
  split.
  - rewrite app_assoc. apply cstr_app_nul. now apply no_nul_app.
  - rewrite length_app in Hfit. simpl in Hfit.
    rewrite !length_app. simpl. rewrite length_skipn, length_app. simpl. lia.
Qed.

(** An overflowing [strcat] is undefined. *)
Lemma strcat_overflow (dst : buffer) (d s : list ascii) :
  cstr dst = Some d -> length dst < length d + length s + 1 ->
  strcat dst s = None.
Proof.
  intros Hd Hlen. unfold strcat, store. rewrite Hd.
  destruct (Nat.leb_spec (length d + length s + 1) (length dst)); [lia|reflexivity].
Qed.

(** ** Decimal numerals *)

Lemma no_nul_uint (d : Decimal.uint) :
  no_nul (list_ascii_of_string (NilEmpty.string_of_uint d)).
Proof.
  induction d; simpl; constructor; try assumption; discriminate.
Qed.

Lemma no_nul_decimal (n : Z) : no_nul (decimal n).
Proof.
  unfold decimal. destruct (Z.to_int n) as [d|d]; simpl.
  - destruct d; try apply no_nul_uint.
    simpl. constructor; [discriminate | constructor].
  - constructor; [discriminate|].
    destruct d; try apply no_nul_uint.
    simpl. constructor; [discriminate | constructor].
Qed.

(** The numeral printed for [n] reads back as [n]: it is the base-10
    numeral of [n]. *)
Lemma decimal_reads_back (n : Z) :
  option_map Z.of_int
    (NilZero.int_of_string (string_of_list_ascii (decimal n))) = Some n.
Proof.
  unfold decimal. rewrite string_of_list_ascii_of_string.
  rewrite NilZero.isi.
  - simpl. f_equal. apply DecimalZ.of_to.
  - destruct n as [|p|p]; simpl; try discriminate.
    intros E; injection E. apply DecimalPos.Unsigned.to_uint_nonnil.
  - destruct n as [|p|p]; simpl; try discriminate.
    intros E; injection E. apply DecimalPos.Unsigned.to_uint_nonnil.
Qed.

Lemma decimal_inj (n m : Z) : decimal n = decimal m -> n = m.
Proof.
  intros E. pose proof (decimal_reads_back n) as Hn.
  rewrite E, decimal_reads_back in Hn. congruence.
Qed.

(** ** The name of a page file *)

Lemma clean_malloc (w : world) (id : nat) :
  clean w -> cstr (malloc w id NAME) = Some [].
Proof. intros H. unfold malloc. simpl. now rewrite H. Qed.

Lemma length_malloc (w : world) (id size : nat) :
  length (malloc w id size) = size.
Proof. unfold malloc. now rewrite length_map, length_seq. Qed.

Lemma no_nul_lit_dot : no_nul (lit "./").
Proof. repeat constructor; discriminate. Qed.

Lemma no_nul_lit_slash : no_nul (lit "/").
Proof. repeat constructor; discriminate. Qed.

Lemma no_nul_lit_under : no_nul (lit "_").
Proof. repeat constructor; discriminate. Qed.

Lemma sprintf_d_fits (n : Z) :
  length (decimal n) + 1 <= 10 -> sprintf_d n = Some (decimal n).
Proof.
  intros H. unfold sprintf_d. apply Nat.leb_le in H. now rewrite H.
Qed.

(** One [strcat] of [build_fname]: the step is taken with [strcat_spec] and
    the facts about the new block replace those about the old one. *)
Ltac strcat_step Hc Hl :=
  match goal with
  | |- context [strcat ?b ?s] =>
      let b' := fresh "fname" in
      let E := fresh "E" in
      let Hc' := fresh "Hc" in
      let Hl' := fresh "Hl" in
      destruct (strcat_spec b _ s Hc) as (b' & E & Hc' & Hl');
      [ auto using no_nul_lit_dot, no_nul_lit_slash, no_nul_lit_under,
          no_nul_decimal
      | rewrite Hl; simpl; repeat (rewrite length_app; simpl); lia
      | rewrite E; simpl; rewrite Hl in Hl'; clear E Hc Hl b;
        rename Hc' into Hc; rename Hl' into Hl ]
  end.

(** The six [strcat]s append the documented name to whatever string the
    block held when [malloc] returned it, provided the whole fits. *)
Lemma build_fname_from (fname folder file_format : buffer)
  (g f s : list ascii) (n : Z) :
  cstr fname = Some g -> length fname = NAME ->
  cstr folder = Some f -> cstr file_format = Some s ->
  length (decimal n) + 1 <= 10 ->
  length g + length (page_name f s n) + 1 <= NAME ->
  exists fname', build_fname fname folder file_format n = Ok fname' /\
                 cstr fname' = Some (g ++ page_name f s n).
Proof.
  intros Hc Hl Hf Hs Hd Hn.
  destruct (cstr_split _ _ Hf) as [Nf _].
  destruct (cstr_split _ _ Hs) as [Ns _].
  unfold page_name in Hn. repeat (rewrite length_app in Hn; simpl in Hn).
  unfold build_fname. rewrite Hf, Hs, (sprintf_d_fits n Hd). simpl.
  strcat_step Hc Hl.
  strcat_step Hc Hl.
  strcat_step Hc Hl.
  strcat_step Hc Hl.
  strcat_step Hc Hl.
  strcat_step Hc Hl.
  eexists; split; [reflexivity|].
  rewrite Hc. unfold page_name. now rewrite <- !app_assoc.
Qed.

(** From a block that holds the empty string they build the documented
    name. *)
Lemma build_fname_spec (fname folder file_format : buffer)
  (f s : list ascii) (n : Z) :
  cstr fname = Some [] -> length fname = NAME ->
  cstr folder = Some f -> cstr file_format = Some s ->
  fits f s n ->
  exists fname', build_fname fname folder file_format n = Ok fname' /\
                 cstr fname' = Some (page_name f s n).
Proof.
  intros Hc Hl Hf Hs (Hd & Hn & _).
  now apply (build_fname_from fname folder file_format [] f s n).
Qed.

(** ** One round of the [while] loop *)

Lemma clear_loop_null (r : nat) (p : option nat) :
  0 < r -> clear_loop r p = None.
Proof.
  destruct r as [|r]; [lia|]. intros _. simpl. clear p.
  induction r; simpl; auto.
Qed.

Lemma PAGE_pos : 0 < PAGE.
Proof. apply Nat.ltb_lt. vm_compute. reflexivity. Qed.

Lemma read_page_eq (w : world) (path data : list ascii) (st : state) :
  read_page w path data st =
  {| nalloc := S (nalloc st);
     trace := trace st ++ page_events w (nalloc st) path data;
     leaked := leaked st ++
       [(nalloc st, fscanf_8192c data (malloc w (nalloc st) PAGE))] |}.
Proof.
  unfold read_page. rewrite (clear_loop_null PAGE _ PAGE_pos).
  unfold leak, emit, alloc, page_events. simpl.
  now rewrite <- app_assoc.
Qed.

Section Record_scan.

Variable w : world.
Variables folder file_format : buffer.
Variables f s : list ascii.

Hypothesis w_clean : clean w.
Hypothesis folder_holds : cstr folder = Some f.
Hypothesis file_format_holds : cstr file_format = Some s.

Lemma scan_hit (fuel : nat) (n : Z) (data : list ascii) (st : state) :
  fits f s n ->
  files w (page_name f s n) = Some data ->
  scan (S fuel) w folder file_format n st =
  scan fuel w folder file_format (n + 1)
    (after_hit w (page_name f s n) data st).
Proof.
  intros Hfit Hfile.
  destruct (build_fname_spec (malloc w (nalloc st) NAME) folder file_format
              f s n) as (b & Eb & Hb);
    auto using clean_malloc, length_malloc.
  cbn [scan]. rewrite Eb. cbn [bind]. rewrite Hb. cbn [defined bind].
  rewrite Hfile.
  destruct Hfit as (_ & _ & Hint). apply Z.ltb_lt in Hint. rewrite Hint.
  reflexivity.
Qed.

Lemma scan_miss (fuel : nat) (n : Z) (st : state) :
  fits f s n ->
  files w (page_name f s n) = None ->
  scan (S fuel) w folder file_format n st =
  Ok (after_miss (page_name f s n) st).
Proof.
  intros Hfit Hfile.
  destruct (build_fname_spec (malloc w (nalloc st) NAME) folder file_format
              f s n) as (b & Eb & Hb);
    auto using clean_malloc, length_malloc.
  cbn [scan]. rewrite Eb. cbn [bind]. rewrite Hb. cbn [defined bind].
  now rewrite Hfile.
Qed.

End Record_scan.

(** ** A whole record *)

Lemma scan_run (w : world) (folder file_format : buffer) (f s : list ascii)
  (datas : list (list ascii)) :
  clean w -> cstr folder = Some f -> cstr file_format = Some s ->
  forall (n : Z) (st : state) (fuel : nat),
    pages_from w f s datas n -> length datas < fuel ->
    scan fuel w folder file_format n st = Ok (scan_result w f s datas n st).
Proof.
  intros Hw Hf Hs. induction datas as [|d ds IH]; intros n st fuel Hp Hfuel;
    (destruct fuel as [|fuel]; [simpl in Hfuel; lia|]).
  - destruct Hp as [Hfit Hnone]. now apply scan_miss.
  - destruct Hp as (Hfit & Hsome & Hrest).
    rewrite (scan_hit w folder file_format f s Hw Hf Hs fuel n d st Hfit Hsome).
    apply IH; [assumption | simpl in Hfuel; lia].
Qed.

Lemma scan_result_trace (w : world) (f s : list ascii)
  (datas : list (list ascii)) (n : Z) (st : state) :
  trace (scan_result w f s datas n st) =
  trace st ++ record_trace w f s datas n (nalloc st).
Proof.
  revert n st; induction datas as [|d ds IH]; intros n st; simpl.
  - now rewrite <- app_assoc.
  - rewrite IH. unfold after_hit. rewrite read_page_eq. simpl.
    now rewrite <- !app_assoc.
Qed.

Lemma scan_result_nalloc (w : world) (f s : list ascii)
  (datas : list (list ascii)) (n : Z) (st : state) :
  nalloc (scan_result w f s datas n st) = nalloc st + (2 * length datas + 1).
Proof.
  revert n st; induction datas as [|d ds IH]; intros n st; simpl.
  - lia.
  - rewrite IH. unfold after_hit. rewrite read_page_eq. simpl. lia.
Qed.

Lemma probes_record_trace (w : world) (f s : list ascii)
  (datas : list (list ascii)) (n : Z) (id : nat) :
  probes (record_trace w f s datas n id) =
  map (fun j => (page_name f s (n + Z.of_nat j), true)) (seq 0 (length datas))
  ++ [(page_name f s (n + Z.of_nat (length datas)), false)].
Proof.
  revert n id; induction datas as [|d ds IH]; intros n id.
  - simpl. now rewrite Z.add_0_r.
  - cbn [record_trace probes flat_map page_events app length seq map].
    fold (probes (record_trace w f s ds (n + 1) (S (S id)))).
    rewrite IH, Z.add_0_r, <- seq_shift, map_map. f_equal. f_equal.
    + apply map_ext. intros j. do 2 f_equal. lia.
    + do 3 f_equal. lia.
Qed.

(** ** Deciding the hypotheses on sample worlds *)

Lemma clean_zeroed (m : option (list ascii))
  (fs : list ascii -> option (list ascii)) :
  clean {| manifest := m; files := fs; uninit := zeroed |}.
Proof. intros id. reflexivity. Qed.

(** Decides [fits] on closed terms. *)
Ltac fits_tac :=
  unfold fits; split; [|split];
  [ apply Nat.leb_le; vm_compute; reflexivity
  | apply Nat.leb_le; vm_compute; reflexivity
  | apply Z.ltb_lt; vm_compute; reflexivity ].

(** ** The page block *)

Lemma length_fscanf_8192c (data : list ascii) (page : buffer) :
  length page = PAGE -> length (fscanf_8192c data page) = PAGE.
Proof.
  intros H. unfold fscanf_8192c.
  rewrite length_app, length_skipn, length_firstn, H. lia.
Qed.

Lemma fscanf_8192c_prefix (data : list ascii) (page : buffer) :
  firstn (Nat.min PAGE (length data)) (fscanf_8192c data page)
  = firstn PAGE data.
Proof.
  unfold fscanf_8192c. rewrite <- (length_firstn PAGE data).
  rewrite firstn_app, firstn_all, Nat.sub_diag, firstn_O.
  apply app_nil_r.
Qed.

Lemma fscanf_8192c_full (data : list ascii) (page : buffer) :
  length page = PAGE -> PAGE <= length data ->
  fscanf_8192c data page = firstn PAGE data.
Proof.
  intros Hp Hd. unfold fscanf_8192c.
  rewrite length_firstn, Nat.min_l by assumption.
  rewrite skipn_all2 by lia. apply app_nil_r.
Qed.

Lemma fscanf_8192c_short (data : list ascii) (page : buffer) :
  length data <= PAGE ->
  fscanf_8192c data page = data ++ skipn (length data) page.
Proof.
  intros Hd. unfold fscanf_8192c. now rewrite firstn_all2 by assumption.
Qed.

Lemma PAGE_ge_4 : 4 <= PAGE.
Proof. apply Nat.leb_le. vm_compute. reflexivity. Qed.

Lemma fscanf_8192c_offset_3 (data : list ascii) (page : buffer) :
  4 <= length data ->
  nth 3 (fscanf_8192c data page) NUL = nth 3 data NUL.
Proof.
  intros Hd. pose proof PAGE_ge_4 as HP. unfold fscanf_8192c.
  rewrite app_nth1 by (rewrite length_firstn; lia).
  rewrite nth_firstn.
  destruct (Nat.ltb_spec 3 PAGE); [reflexivity | lia].
Qed.

(** ** Where the program leaves the documented behaviour *)

(** C1. With no manifest to open, [trace_file] is the null pointer and the
    first statement of the first round hands it to [fscanf]: the run has no
    defined behaviour, and no exit status of its own. *)
Theorem missing_manifest_is_undefined (fuel : nat) (w : world) :
  manifest w = None -> main fuel w = Undefined.
Proof.
  intros H. unfold main. rewrite H. reflexivity.
Qed.

Lemma missing_manifest_is_undefined_witness :
  main 1 no_manifest_world = Undefined.
Proof.
  apply (missing_manifest_is_undefined 1 no_manifest_world). reflexivity.
Defined.

(** C6. The name probed is the documented name appended to the string the
    block of [fname] held when [malloc] returned it: the block is never
    initialised, and [strcat] starts where that string ends. *)
Theorem probed_name_keeps_stale_prefix (w : world)
  (folder file_format : buffer) (g f s : list ascii) (n : Z) (fuel : nat)
  (st : state) :
  cstr (malloc w (nalloc st) NAME) = Some g ->
  cstr folder = Some f -> cstr file_format = Some s ->
  length (decimal n) + 1 <= 10 ->
  length g + length (page_name f s n) + 1 <= NAME ->
  files w (g ++ page_name f s n) = None ->
  scan (S fuel) w folder file_format n st
  = Ok (after_miss (g ++ page_name f s n) st).
Proof.
  intros Hg Hf Hs Hd Hn Hfile.
  destruct (build_fname_from (malloc w (nalloc st) NAME) folder file_format
              g f s n) as (b & Eb & Hb); auto using length_malloc.
  cbn [scan]. rewrite Eb. cbn [bind]. rewrite Hb. cbn [defined bind].
  now rewrite Hfile.
Qed.

(** In [stale_world] page 1 of record [d s] exists, and the first name
    probed is [X./d/s_1], which does not. *)
Lemma probed_name_keeps_stale_prefix_witness :
  files stale_world (page_name (lit "d") (lit "s") 1) = Some (lit "page one") /\
  scan 1 stale_world (block_of (lit "d")) (block_of (lit "s")) 1 initial
  = Ok (after_miss (lit "X" ++ page_name (lit "d") (lit "s") 1) initial).
Proof.
  split; [reflexivity|].
  apply (probed_name_keeps_stale_prefix stale_world (block_of (lit "d"))
           (block_of (lit "s")) (lit "X") (lit "d") (lit "s") 1 0 initial).
  - reflexivity.
  - reflexivity.
  - reflexivity.
  - apply Nat.leb_le. vm_compute. reflexivity.
  - apply Nat.leb_le. vm_compute. reflexivity.
  - reflexivity.
Defined.

(** C5. After the loop that follows [fclose], the block of the page holds
    the bytes that were read into it: the loop assigns to the pointer, the
    block is not written to and is not reachable any more, and the next
    page gets another block from [malloc]. *)
Theorem clearing_loop_keeps_page_bytes (w : world)
  (folder file_format : buffer) (f s data : list ascii) (n : Z) (fuel : nat)
  (st : state) :
  clean w -> cstr folder = Some f -> cstr file_format = Some s ->
  fits f s n ->
  files w (page_name f s n) = Some data ->
  exists page st',
    scan (S fuel) w folder file_format n st
      = scan fuel w folder file_format (n + 1) st' /\
    leaked st' = leaked st ++ [(S (nalloc st), page)] /\
    nalloc st' = S (S (nalloc st)) /\
    firstn (Nat.min PAGE (length data)) page = firstn PAGE data.
Proof.
  intros Hw Hf Hs Hfit Hfile.
  exists (fscanf_8192c data (malloc w (S (nalloc st)) PAGE)),
         (after_hit w (page_name f s n) data st).
  split; [now apply scan_hit|].
  unfold after_hit. rewrite read_page_eq. cbn [leaked nalloc emit alloc].
  split; [reflexivity|]. split; [reflexivity|].
  apply fscanf_8192c_prefix.
Qed.

Lemma clearing_loop_keeps_page_bytes_witness :
  exists page st',
    scan 3 gap_world (block_of (lit "d")) (block_of (lit "s")) 1 initial
      = scan 2 gap_world (block_of (lit "d")) (block_of (lit "s")) (1 + 1) st' /\
    leaked st' = leaked initial ++ [(S (nalloc initial), page)] /\
    nalloc st' = S (S (nalloc initial)) /\
    firstn (Nat.min PAGE (length (lit "page one"))) page
      = firstn PAGE (lit "page one").
Proof.
  apply (clearing_loop_keeps_page_bytes gap_world (block_of (lit "d"))
           (block_of (lit "s")) (lit "d") (lit "s") (lit "page one") 1 2
           initial).
  - apply clean_zeroed.
  - reflexivity.
  - reflexivity.
  - fits_tac.
  - reflexivity.
Defined.

(** ** Reading the manifest *)

Lemma token_word (t rest : list ascii) :
  Forall (fun c => isspace c = false) t -> token_end rest ->
  token (t ++ rest) = (t, rest).
Proof.
  intros Ht Hc. induction Ht as [|x t Hx Ht IH]; simpl.
  - destruct rest as [|c rest]; [reflexivity|].
    simpl in Hc. cbn [token]. now rewrite Hc.
  - now rewrite Hx, IH.
Qed.

Lemma scan_s_word (t rest : list ascii) :
  t <> [] -> Forall (fun c => isspace c = false) t -> token_end rest ->
  scan_s (t ++ rest) = Some (t, rest).
Proof.
  intros Hne Ht Hc. unfold scan_s.
  destruct t as [|x t]; [congruence|].
  inversion Ht as [|? ? Hx Ht']; subst.
  cbn [app skip_ws]. rewrite Hx.
  change (x :: t ++ rest) with ((x :: t) ++ rest).
  now rewrite (token_word (x :: t) rest Ht Hc).
Qed.

Lemma scan_s_gap (ws x : list ascii) :
  gap ws -> scan_s (ws ++ x) = scan_s x.
Proof.
  intros Hws. unfold scan_s. induction Hws as [|c ws Hc Hws IH]; simpl.
  - reflexivity.
  - now rewrite Hc.
Qed.

Lemma scan_s_end (ws : list ascii) : gap ws -> scan_s ws = None.
Proof.
  intros Hws. unfold scan_s. induction Hws as [|c ws Hc Hws IH]; simpl.
  - reflexivity.
  - now rewrite Hc.
Qed.

Lemma store_word (b : buffer) (t : list ascii) :
  no_nul t -> length t < length b ->
  exists b', store b 0 t = Some b' /\ cstr b' = Some t /\
             length b' = length b.
Proof.
  intros Hn Hl. unfold store.
  destruct (Nat.leb_spec (0 + length t + 1) (length b)) as [_|]; [|lia].
  eexists; split; [reflexivity|]. cbn [firstn app]. split.
  - now apply cstr_app_nul.
  - rewrite length_app. cbn [length]. rewrite length_skipn. lia.
Qed.

Lemma token_end_gap (sep x : list ascii) :
  gap sep -> sep <> [] -> token_end (sep ++ x).
Proof.
  intros Hsep Hne. destruct Hsep as [|c sep Hc _]; [congruence|exact Hc].
Qed.

(** [fscanf] before a record of the manifest stores its two fields. *)
Lemma fscanf_ss_record (ws f sep s rest : list ascii) (fo ff : buffer) :
  gap ws -> word f -> gap sep -> sep <> [] -> word s -> token_end rest ->
  length fo = NAME -> length ff = NAME ->
  exists fo' ff',
    fscanf_ss (ws ++ f ++ sep ++ s ++ rest) fo ff = Ok (rest, fo', ff') /\
    cstr fo' = Some f /\ length fo' = NAME /\
    cstr ff' = Some s /\ length ff' = NAME.
Proof.
  intros Hws (Hfne & Hfsp & Hfn & Hfl) Hsep Hsepne
         (Hsne & Hssp & Hsn & Hsl) Hrest Hlo Hlf.
  destruct (store_word fo f Hfn) as (fo' & Efo & Hcfo & Hlfo); [lia|].
  destruct (store_word ff s Hsn) as (ff' & Eff & Hcff & Hlff); [lia|].
  exists fo', ff'. unfold fscanf_ss.
  rewrite scan_s_gap by assumption.
  rewrite (scan_s_word f (sep ++ s ++ rest) Hfne Hfsp)
    by now apply token_end_gap.
  rewrite Efo. cbn [defined bind].
  rewrite scan_s_gap by assumption.
  rewrite (scan_s_word s rest Hsne Hssp Hrest).
  rewrite Eff. cbn [defined bind].
  repeat split; congruence.
Qed.

Lemma token_end_of_gap (ws : list ascii) : gap ws -> token_end ws.
Proof. intros H. destruct H as [|c ws Hc _]; [exact I | exact Hc]. Qed.

(** [fscanf] before a last folder without stem stores the folder and
    leaves the block of the stem as it was. *)
Lemma fscanf_ss_lone (ws f ws' : list ascii) (fo ff : buffer) :
  gap ws -> word f -> gap ws' -> length fo = NAME ->
  exists fo',
    fscanf_ss (ws ++ f ++ ws') fo ff = Ok ([], fo', ff) /\
    cstr fo' = Some f /\ length fo' = NAME.
Proof.
  intros Hws (Hfne & Hfsp & Hfn & Hfl) Hws' Hlo.
  destruct (store_word fo f Hfn) as (fo' & Efo & Hcfo & Hlfo); [lia|].
  exists fo'. unfold fscanf_ss.
  rewrite scan_s_gap by assumption.
  rewrite (scan_s_word f ws' Hfne Hfsp) by now apply token_end_of_gap.
  rewrite Efo. cbn [defined bind].
  rewrite scan_s_end by assumption.
  repeat split; congruence.
Qed.

(** [fscanf] at the end of the manifest stores nothing. *)
Lemma fscanf_ss_end (ws : list ascii) (fo ff : buffer) :
  gap ws -> fscanf_ss ws fo ff = Ok ([], fo, ff).
Proof.
  intros Hws. unfold fscanf_ss. now rewrite scan_s_end.
Qed.

(** ** The loop that zeroes the name blocks *)

Lemma set_nth_spec (k : nat) (c : ascii) (b : buffer) :
  k < length b ->
  set_nth k c b = Some (firstn k b ++ c :: skipn (S k) b).
Proof.
  revert k; induction b as [|x b IH]; intros k Hk; simpl in Hk; [lia|].
  destruct k as [|k]; [reflexivity|].
  cbn [set_nth]. rewrite IH by lia. reflexivity.
Qed.

Lemma zero_loop_spec (r : nat) : forall (from : nat) (b : buffer),
  from + r <= length b ->
  zero_loop r from b
  = Some (firstn from b ++ repeat NUL r ++ skipn (from + r) b).
Proof.
  induction r as [|r IH]; intros from b Hl.
  - cbn [zero_loop repeat app]. rewrite Nat.add_0_r.
    now rewrite firstn_skipn.
  - cbn [zero_loop]. rewrite set_nth_spec by lia.
    rewrite IH.
    + f_equal.
      rewrite firstn_app, firstn_firstn, Nat.min_r by lia.
      rewrite length_firstn, Nat.min_l by lia.
      replace (S from - from) with 1 by lia. cbn [firstn].
      rewrite <- app_assoc. f_equal. cbn [app repeat]. f_equal. f_equal.
      rewrite skipn_app, length_firstn, Nat.min_l by lia.
      rewrite (skipn_all2 (firstn from b))
        by (rewrite length_firstn; lia).
      replace (S from + r - from) with (S r) by lia.
      cbn [app]. rewrite skipn_cons, skipn_skipn. f_equal. lia.
    + rewrite length_app, length_firstn. cbn [length].
      rewrite length_skipn. lia.
Qed.

Lemma zero_loop_all (b : buffer) :
  length b = NAME -> zero_loop NAME 0 b = Some (repeat NUL NAME).
Proof.
  intros Hl. rewrite zero_loop_spec by lia.
  cbn [firstn app Nat.add]. rewrite skipn_all2 by lia.
  now rewrite app_nil_r.
Qed.

(** ** The rounds of the [for] loop *)

Lemma ready_zeroed (input : list ascii)
  (rs : list (list ascii * list ascii)) :
  holds_records input rs ->
  ready {| trace_file := Some input;
           folder := repeat NUL NAME;
           file_format := repeat NUL NAME |} rs.
Proof.
  intros H. exists input. cbn [trace_file folder file_format].
  repeat split; auto.
Qed.

(** A round before a record of the manifest scans that record. *)
Lemma round_record (w : world) (fuel : nat) (l : locals) (st : state)
  (f s : list ascii) (datas : list (list ascii))
  (rs : list (list ascii * list ascii)) :
  clean w -> ready l ((f, s) :: rs) -> good w fuel ((f, s), datas) ->
  exists l',
    round fuel w l st = Ok (l', scan_result w f s datas 1 st) /\ ready l' rs.
Proof.
  intros Hw (input & Etf & Hin & _ & Hlfo & Hcff0 & Hlff) (Hp & Hfuel).
  cbn [fst snd] in *.
  inversion Hin as [|ws f' ws' Hws Hf Hws'
                    |ws f' sep s' rest rs' Hws Hf Hsep Hsepne Hs Hrest Hrs];
    subst.
  - destruct (fscanf_ss_lone ws f ws' (folder l) (file_format l)
                Hws Hf Hws' Hlfo) as (fo' & E & Hcfo & Hlfo').
    exists {| trace_file := Some [];
              folder := repeat NUL NAME;
              file_format := repeat NUL NAME |}.
    split; [|apply ready_zeroed; repeat constructor].
    unfold round. rewrite Etf. cbn [defined bind].
    rewrite E. cbn [bind].
    rewrite (scan_run w fo' (file_format l) f [] datas Hw Hcfo Hcff0 1 st
               fuel Hp Hfuel).
    cbn [bind]. rewrite !zero_loop_all by assumption. reflexivity.
  - destruct (fscanf_ss_record ws f sep s rest (folder l) (file_format l)
                Hws Hf Hsep Hsepne Hs Hrest Hlfo Hlff)
      as (fo' & ff' & E & Hcfo & Hlfo' & Hcff & Hlff').
    exists {| trace_file := Some rest;
              folder := repeat NUL NAME;
              file_format := repeat NUL NAME |}.
    split; [|now apply ready_zeroed].
    unfold round. rewrite Etf. cbn [defined bind].
    rewrite E. cbn [bind].
    rewrite (scan_run w fo' ff' f s datas Hw Hcfo Hcff 1 st fuel Hp Hfuel).
    cbn [bind]. rewrite !zero_loop_all by assumption. reflexivity.
Qed.

(** A round after the last record scans the record of two empty fields. *)
Lemma round_blank (w : world) (fuel : nat) (l : locals) (st : state)
  (datas : list (list ascii)) :
  clean w -> ready l [] ->
  pages_from w [] [] datas 1 -> length datas < fuel ->
  exists l',
    round fuel w l st = Ok (l', scan_result w [] [] datas 1 st) /\
    ready l' [].
Proof.
  intros Hw (input & Etf & Hin & Hcfo & Hlfo & Hcff & Hlff) Hp Hfuel.
  inversion Hin as [ws Hws| |]; subst.
  exists {| trace_file := Some [];
            folder := repeat NUL NAME;
            file_format := repeat NUL NAME |}.
  split; [|apply ready_zeroed; repeat constructor].
  unfold round. rewrite Etf. cbn [defined bind].
  rewrite (fscanf_ss_end input) by assumption. cbn [bind].
  rewrite (scan_run w (folder l) (file_format l) [] [] datas Hw Hcfo Hcff
             1 st fuel Hp Hfuel).
  cbn [bind]. rewrite !zero_loop_all by assumption. reflexivity.
Qed.

Lemma rounds_app (n m fuel : nat) (w : world) (l : locals) (st : state) :
  rounds (n + m) fuel w l st =
  bind (rounds n fuel w l st) (fun r => rounds m fuel w (fst r) (snd r)).
Proof.
  revert l st; induction n as [|n IH]; intros l st.
  - reflexivity.
  - cbn [Nat.add rounds]. destruct (round fuel w l st) as [[l' st']| |];
      cbn [bind fst snd]; auto.
Qed.

(** As many rounds as the manifest has records scan these records, in the
    order of the manifest. *)
Lemma rounds_records (w : world) (fuel : nat) (jobs : list job) :
  clean w -> Forall (good w fuel) jobs ->
  forall (l : locals) (st : state),
    ready l (map fst jobs) ->
    exists l',
      rounds (length jobs) fuel w l st = Ok (l', run_jobs w jobs st) /\
      ready l' [].
Proof.
  intros Hw Hjobs. induction Hjobs as [|[[f s] datas] jobs Hj Hjobs IH];
    intros l st Hl.
  - exists l. now split.
  - cbn [map fst] in Hl.
    destruct (round_record w fuel l st f s datas (map fst jobs) Hw Hl Hj)
      as (l1 & E1 & Hl1).
    destruct (IH l1 (scan_result w f s datas 1 st) Hl1) as (l' & E' & Hl').
    exists l'. split; [|assumption].
    cbn [length rounds]. rewrite E1. cbn [bind fst snd]. rewrite E'.
    reflexivity.
Qed.

(** Every further round scans the record of two empty fields. *)
Lemma rounds_blank (w : world) (fuel : nat) (datas : list (list ascii)) :
  clean w -> pages_from w [] [] datas 1 -> length datas < fuel ->
  forall (m : nat) (l : locals) (st : state),
    ready l [] ->
    exists l',
      rounds m fuel w l st = Ok (l', run_jobs w (repeat (blank datas) m) st) /\
      ready l' [].
Proof.
  intros Hw Hp Hfuel. induction m as [|m IH]; intros l st Hl.
  - exists l. now split.
  - destruct (round_blank w fuel l st datas Hw Hl Hp Hfuel) as (l1 & E1 & Hl1).
    destruct (IH l1 (scan_result w [] [] datas 1 st) Hl1) as (l' & E' & Hl').
    exists l'. split; [|assumption].
    cbn [rounds repeat run_jobs blank fst snd]. rewrite E1.
    cbn [bind fst snd]. exact E'.
Qed.

Lemma run_jobs_app (w : world) (js1 js2 : list job) (st : state) :
  run_jobs w (js1 ++ js2) st = run_jobs w js2 (run_jobs w js1 st).
Proof.
  revert st; induction js1 as [|j js1 IH]; intros st; simpl; auto.
Qed.

Lemma run_jobs_trace (w : world) (jobs : list job) (st : state) :
  trace (run_jobs w jobs st) = trace st ++ jobs_trace w jobs (nalloc st).
Proof.
  revert st; induction jobs as [|j jobs IH]; intros st.
  - cbn [run_jobs jobs_trace]. now rewrite app_nil_r.
  - cbn [run_jobs jobs_trace]. rewrite IH, scan_result_trace,
      scan_result_nalloc. now rewrite <- app_assoc.
Qed.

(** The whole run on a manifest of at most 400 records: the records are
    scanned in the order of the manifest, the remaining rounds scan the
    record of two empty fields, and [main] returns 0. *)
Lemma main_run (w : world) (fuel : nat) (input : list ascii)
  (jobs : list job) (datas : list (list ascii)) :
  clean w ->
  manifest w = Some input -> holds_records input (map fst jobs) ->
  length jobs <= 400 ->
  Forall (good w fuel) jobs ->
  pages_from w [] [] datas 1 -> length datas < fuel ->
  main fuel w
  = Ok (0%Z, run_jobs w (jobs ++ repeat (blank datas) (400 - length jobs))
               (alloc (alloc initial))).
Proof.
  intros Hw Hm Hin Hlen Hjobs Hp Hfuel. unfold main.
  replace 400 with (length jobs + (400 - length jobs)) at 1 by lia.
  rewrite rounds_app.
  destruct (rounds_records w fuel jobs Hw Hjobs
              {| trace_file := manifest w;
                 folder := malloc w 0 NAME;
                 file_format := malloc w 1 NAME |} (alloc (alloc initial)))
    as (l1 & E1 & Hl1).
  { exists input. cbn [trace_file folder file_format].
    repeat split; auto using clean_malloc, length_malloc. }
  rewrite E1. cbn [bind fst snd].
  destruct (rounds_blank w fuel datas Hw Hp Hfuel (400 - length jobs) l1
              (run_jobs w jobs (alloc (alloc initial))) Hl1)
    as (l2 & E2 & _).
  rewrite E2. cbn [bind snd]. now rewrite run_jobs_app.
Qed.

(** ** The claims about the whole run *)

Lemma Ok_inj (A : Type) (a b : A) : Ok a = Ok b -> a = b.
Proof. intros E. now injection E. Qed.

Lemma probes_app (t1 t2 : list event) :
  probes (t1 ++ t2) = probes t1 ++ probes t2.
Proof. apply flat_map_app. Qed.

Lemma probes_jobs_trace_length (w : world) (jobs : list job) (id : nat) :
  length (probes (jobs_trace w jobs id))
  = list_sum (map (fun j => S (length (snd j))) jobs).
Proof.
  revert id; induction jobs as [|j jobs IH]; intros id.
  - reflexivity.
  - cbn [jobs_trace map]. rewrite probes_app, length_app, IH.
    rewrite probes_record_trace, length_app, length_map, length_seq.
    unfold list_sum. cbn [length fold_right]. lia.
Qed.

(** Decides [word] on closed terms. *)
Ltac word_tac :=
  unfold word; split; [discriminate|];
  split; [repeat constructor|];
  split; [repeat constructor; discriminate|];
  apply Nat.ltb_lt; reflexivity.

Lemma holds_d_s : holds_records (lit "d s" ++ [LF]) [(lit "d", lit "s")].
Proof.
  apply (holds_record [] (lit "d") (lit " ") (lit "s") [LF] []).
  - constructor.
  - word_tac.
  - repeat constructor.
  - discriminate.
  - word_tac.
  - reflexivity.
  - apply holds_none. repeat constructor.
Qed.

Lemma good_gap_jobs : Forall (good gap_world 3) gap_jobs.
Proof.
  constructor; [|constructor].
  split.
  - cbn [pages_from gap_jobs fst snd].
    repeat split; try reflexivity; try (apply Nat.leb_le; vm_compute; reflexivity).
  - cbn [gap_jobs snd length]. lia.
Qed.

Lemma blank_gap_world : pages_from gap_world [] [] [] 1.
Proof.
  cbn [pages_from]. split; [fits_tac | reflexivity].
Qed.

(** Against C2 as it is written.  The run on [gap_world] makes 400 rounds:
    after the record [d s] it scans the record of two empty fields 399
    times, and probes a name each time. *)
Lemma remaining_rounds_not_skipped :
  ~ remaining_rounds_skipped gap_world 3 gap_jobs.
Proof.
  intros (st & E & Htr).
  rewrite (main_run gap_world 3 _ gap_jobs [] (clean_zeroed _ _) eq_refl
             holds_d_s) in E.
  - apply Ok_inj in E. apply (f_equal snd) in E. cbn [snd] in E. subst st.
    rewrite run_jobs_trace in Htr. cbn [trace initial alloc nalloc app] in Htr.
    apply (f_equal (fun t => length (probes t))) in Htr.
    rewrite !probes_jobs_trace_length in Htr.
    vm_compute in Htr. discriminate.
  - cbn [gap_jobs length]. lia.
  - apply good_gap_jobs.
  - apply blank_gap_world.
  - cbn [length]. lia.
Qed.

Lemma jobs_trace_app (w : world) (js1 js2 : list job) (id : nat) :
  jobs_trace w (js1 ++ js2) id
  = jobs_trace w js1 id
    ++ jobs_trace w js2
         (id + list_sum (map (fun j => 2 * length (snd j) + 1) js1)).
Proof.
  revert id; induction js1 as [|j js1 IH]; intros id.
  - cbn [app jobs_trace map]. unfold list_sum. cbn [fold_right].
    now rewrite Nat.add_0_r.
  - cbn [app jobs_trace map]. rewrite IH, <- app_assoc.
    unfold list_sum. cbn [fold_right]. do 3 f_equal. lia.
Qed.

Lemma jobs_trace_blank (w : world) (m id : nat) :
  jobs_trace w (repeat (blank []) m) id = concat (repeat blank_probe m).
Proof.
  revert id; induction m as [|m IH]; intros id.
  - reflexivity.
  - cbn [repeat jobs_trace concat]. now rewrite IH.
Qed.

Lemma good_stray_jobs : Forall (good stray_world 2) stray_jobs.
Proof.
  constructor; [|constructor].
  split.
  - cbn [pages_from stray_jobs fst snd]. split; [fits_tac | reflexivity].
  - cbn [stray_jobs snd length]. lia.
Qed.

Lemma blank_stray_world : pages_from stray_world [] [] [lit "stray"] 1.
Proof.
  cbn [pages_from]. split; [fits_tac|]. split; [reflexivity|].
  split; [fits_tac | reflexivity].
Qed.

(** Against C9 as it is written.  In [stray_world] a file [_1] lies in the
    working directory: every round after the record [d s] opens [.//_1],
    reads it and goes on to probe [.//_2]. *)
Lemma remaining_rounds_probe_twice :
  ~ remaining_rounds_probe_once stray_world 2 stray_jobs.
Proof.
  intros (st & E & Htr).
  rewrite (main_run stray_world 2 _ stray_jobs [lit "stray"]
             (clean_zeroed _ _) eq_refl holds_d_s) in E.
  - apply Ok_inj in E. apply (f_equal snd) in E. cbn [snd] in E. subst st.
    rewrite run_jobs_trace in Htr. cbn [trace initial alloc nalloc app] in Htr.
    apply (f_equal (fun t => length (probes t))) in Htr.
    rewrite probes_app, length_app, !probes_jobs_trace_length in Htr.
    vm_compute in Htr. discriminate.
  - cbn [stray_jobs length]. lia.
  - apply good_stray_jobs.
  - apply blank_stray_world.
  - cbn [length]. lia.
Qed.

(** C9, as the program has it.  Where every block comes from [malloc]
    with a zero in front, and every record of the manifest is scanned to
    the end of its pages with names that fit: after the [r] records of the
    manifest, [1 <= r < 400], each of the [400 - r] rounds that remain
    works on two empty names; when [.//_1] cannot be opened, it reports and
    probes that one name and ends. *)
Theorem blank_rounds_probe_once (w : world) (fuel : nat)
  (input : list ascii) (jobs : list job) :
  clean w ->
  manifest w = Some input -> holds_records input (map fst jobs) ->
  1 <= length jobs < 400 ->
  Forall (good w fuel) jobs ->
  files w (lit ".//_1") = None ->
  0 < fuel ->
  remaining_rounds_probe_once w fuel jobs.
Proof.
  intros Hw Hm Hin Hlen Hjobs Hnone Hfuel.
  assert (Hp : pages_from w [] [] [] 1).
  { cbn [pages_from]. split; [fits_tac | exact Hnone]. }
  eexists. split.
  - apply (main_run w fuel input jobs []); auto. lia.
  - rewrite run_jobs_trace. cbn [trace initial alloc nalloc app].
    now rewrite jobs_trace_app, jobs_trace_blank.
Qed.

Lemma blank_rounds_probe_once_witness :
  remaining_rounds_probe_once gap_world 3 gap_jobs.
Proof.
  apply (blank_rounds_probe_once gap_world 3 (lit "d s" ++ [LF]) gap_jobs).
  - apply clean_zeroed.
  - reflexivity.
  - apply holds_d_s.
  - cbn [gap_jobs length]. lia.
  - apply good_gap_jobs.
  - reflexivity.
  - lia.
Defined.

Lemma reads_app (t1 t2 : list event) :
  reads (t1 ++ t2) = reads t1 ++ reads t2.
Proof. apply flat_map_app. Qed.

(** ** Runs of the sample worlds *)

(** The scenario of the documentation: three pages are read, all for the
    first record; 4 names are probed for it, 1 for the second record and 1
    in each of the 398 rounds that follow; [main] returns 0. *)
Example scenario_run :
  summary (main 4 scenario_world) = Some (0%Z, 3, 4 + 1 + 398).
Proof. vm_compute. reflexivity. Qed.

(** Pages 1, 2 and 4: two pages are read. *)
Example gap_run : summary (main 3 gap_world) = Some (0%Z, 2, 3 + 399).
Proof. vm_compute. reflexivity. Qed.

(** With stale bytes in front of every name no page is found, though page
    1 of the record exists. *)
Example stale_run : summary (main 1 stale_world) = Some (0%Z, 0, 400).
Proof. vm_compute. reflexivity. Qed.

(** With a file [_1] in the working directory every round after the record
    reads a page. *)
Example stray_run : summary (main 2 stray_world) = Some (0%Z, 399, 1 + 2 * 399).
Proof. vm_compute. reflexivity. Qed.

(** An empty manifest and blocks that [malloc] returns without any zero
    byte: the first round reads a name block past its end. *)
Example unterminated_run :
  main 1 {| manifest := Some []; files := no_files;
            uninit := fun _ _ => "X"%char |} = Undefined.
Proof. vm_compute. reflexivity. Qed.

(** A field of 100 bytes does not fit its block. *)
Example long_field_run :
  main 1 {| manifest := Some (repeat "a"%char 100 ++ lit " s");
            files := no_files; uninit := zeroed |} = Undefined.
Proof. vm_compute. reflexivity. Qed.

(** A last folder without stem is scanned with the empty stem, and the run
    goes on. *)
Example lone_folder_run :
  option_map (fun r => hd_error (probes (trace (snd r))))
    (match main 1 {| manifest := Some (lit "lonely");
                     files := no_files; uninit := zeroed |} with
     | Ok r => Some r
     | _ => None
     end)
  = Some (Some (lit "./lonely/_1", false)).
Proof. vm_compute. reflexivity. Qed.

(** * Further properties of [main] *)

(** ** Fresh blocks *)

Lemma nth_malloc (w : world) (id size j : nat) :
  j < size -> nth j (malloc w id size) NUL = uninit w id j.
Proof.
  intros Hj. unfold malloc.
  rewrite (nth_indep _ NUL (uninit w id 0))
    by now rewrite length_map, length_seq.
  rewrite map_nth. now rewrite seq_nth.
Qed.

(** ** The name blocks between two rounds *)

Lemma store_length (b : buffer) (p : nat) (s : list ascii) (b' : buffer) :
  store b p s = Some b' -> length b' = length b.
Proof.
  unfold store.
  destruct (Nat.leb_spec (p + length s + 1) (length b)) as [Hl|]; [|discriminate].
  intros E; injection E as <-.
  rewrite length_app, length_firstn, length_app. cbn [length].
  rewrite length_skipn. lia.
Qed.

Lemma fscanf_ss_length (input rest : list ascii) (fo ff fo' ff' : buffer) :
  fscanf_ss input fo ff = Ok (rest, fo', ff') ->
  length fo' = length fo /\ length ff' = length ff.
Proof.
  unfold fscanf_ss. destruct (scan_s input) as [[t1 r1]|].
  - destruct (store fo 0 t1) as [fo1|] eqn:E1; cbn [defined bind];
      [|discriminate].
    apply store_length in E1.
    destruct (scan_s r1) as [[t2 r2]|].
    + destruct (store ff 0 t2) as [ff1|] eqn:E2; cbn [defined bind];
        [|discriminate].
      apply store_length in E2.
      intros E; injection E as <- <- <-. now split.
    + intros E; injection E as <- <- <-. now split.
  - intros E; injection E as <- <- <-. now split.
Qed.

(** A round of the outer loop that comes to its end leaves both name blocks
    filled with 100 zero bytes, whatever the record and whatever the world:
    no byte of a record is left for the next round. *)
Theorem round_leaves_name_blocks_zeroed (fuel : nat) (w : world)
  (l l' : locals) (st st' : state) :
  length (folder l) = NAME -> length (file_format l) = NAME ->
  round fuel w l st = Ok (l', st') ->
  folder l' = repeat NUL NAME /\ file_format l' = repeat NUL NAME.
Proof.
  intros Hlo Hlf. unfold round.
  destruct (trace_file l) as [input|]; cbn [defined bind]; [|discriminate].
  destruct (fscanf_ss input (folder l) (file_format l))
    as [[[rest fo] ff]| |] eqn:E; cbn [bind]; try discriminate.
  apply fscanf_ss_length in E as [Hfo Hff].
  destruct (scan fuel w fo ff 1 st) as [st1| |]; cbn [bind]; try discriminate.
  rewrite !zero_loop_all by congruence. cbn [defined bind].
  intros H; injection H as <- <-. now split.
Qed.

Lemma round_leaves_name_blocks_zeroed_witness :
  exists l' st',
    round 3 gap_world
      {| trace_file := manifest gap_world;
         folder := malloc gap_world 0 NAME;
         file_format := malloc gap_world 1 NAME |} (alloc (alloc initial))
      = Ok (l', st') /\
    folder l' = repeat NUL NAME /\ file_format l' = repeat NUL NAME.
Proof.
  destruct (round 3 gap_world
              {| trace_file := manifest gap_world;
                 folder := malloc gap_world 0 NAME;
                 file_format := malloc gap_world 1 NAME |}
              (alloc (alloc initial))) as [[l' st']| |] eqn:E.
  - exists l', st'. split; [reflexivity|].
    apply (round_leaves_name_blocks_zeroed 3 gap_world
             {| trace_file := manifest gap_world;
                folder := malloc gap_world 0 NAME;
                file_format := malloc gap_world 1 NAME |}
             l' (alloc (alloc initial)) st');
      [reflexivity | reflexivity | exact E].
  - vm_compute in E. discriminate.
  - vm_compute in E. discriminate.
Defined.

(** ** Fields and names that do not fit *)

Lemma store_overflow (b : buffer) (t : list ascii) :
  length b <= length t -> store b 0 t = None.
Proof.
  intros H. unfold store.
  destruct (Nat.leb_spec (0 + length t + 1) (length b)); [lia|reflexivity].
Qed.

(** A record with a folder or a stem of 100 bytes or more makes the round
    that reads it undefined: [fscanf] writes the field past the end of its
    block of 100 bytes, and nothing is probed for the record. *)
Theorem long_field_overflows_block (fuel : nat) (w : world) (l : locals)
  (st : state) (ws f sep s rest : list ascii) :
  trace_file l = Some (ws ++ f ++ sep ++ s ++ rest) ->
  length (folder l) = NAME -> length (file_format l) = NAME ->
  gap ws -> f <> [] -> Forall (fun c => isspace c = false) f ->
  gap sep -> sep <> [] ->
  s <> [] -> Forall (fun c => isspace c = false) s ->
  token_end rest ->
  NAME <= length f \/ NAME <= length s ->
  round fuel w l st = Undefined.
Proof.
  intros Etf Hlo Hlf Hws Hfne Hfsp Hsep Hsepne Hsne Hssp Hrest Hlong.
  unfold round. rewrite Etf. cbn [defined bind]. unfold fscanf_ss.
  rewrite scan_s_gap by assumption.
  rewrite (scan_s_word f (sep ++ s ++ rest) Hfne Hfsp)
    by now apply token_end_gap.
  destruct (store (folder l) 0 f) as [fo'|] eqn:Efo; cbn [defined bind];
    [|reflexivity].
  rewrite scan_s_gap by assumption.
  rewrite (scan_s_word s rest Hsne Hssp Hrest).
  destruct Hlong as [Hlong|Hlong].
  - rewrite store_overflow in Efo by lia. discriminate.
  - rewrite store_overflow by lia. reflexivity.
Qed.

Lemma long_field_overflows_block_witness :
  round 1 gap_world
    {| trace_file := Some (repeat "a"%char 100 ++ lit " " ++ lit "s" ++ []);
       folder := malloc gap_world 0 NAME;
       file_format := malloc gap_world 1 NAME |} initial
  = Undefined.
Proof.
  apply (long_field_overflows_block 1 gap_world _ initial []
           (repeat "a"%char 100) (lit " ") (lit "s") []).
  - reflexivity.
  - reflexivity.
  - reflexivity.
  - constructor.
  - discriminate.
  - apply Forall_forall. intros c Hc. apply repeat_spec in Hc. now subst c.
  - repeat constructor.
  - discriminate.
  - discriminate.
  - repeat constructor.
  - exact I.
  - left. apply Nat.leb_le. reflexivity.
Defined.

Lemma strcat_cases (dst : buffer) (d x : list ascii) :
  cstr dst = Some d -> no_nul x ->
  (exists dst', strcat dst x = Some dst' /\ cstr dst' = Some (d ++ x) /\
                length dst' = length dst) \/
  (strcat dst x = None /\ length dst < length d + length x + 1).
Proof.
  intros Hd Hx.
  destruct (Nat.le_gt_cases (length d + length x + 1) (length dst)) as [H|H].
  - left. now apply strcat_spec.
  - right. split; [now apply (strcat_overflow dst d x) | assumption].
Qed.

(** One [strcat] of [build_fname] that may overflow: either the goal is
    closed, the step being undefined, or the step is taken. *)
Ltac strcat_try Hc Hl :=
  match goal with
  | |- context [strcat ?b ?x] =>
      let b' := fresh "fname" in
      let E := fresh "E" in
      let Hc' := fresh "Hc" in
      let Hl' := fresh "Hl" in
      let Hover := fresh "Hover" in
      destruct (strcat_cases b _ x Hc) as [(b' & E & Hc' & Hl')|[E Hover]];
      [ auto using no_nul_lit_dot, no_nul_lit_slash, no_nul_lit_under,
          no_nul_decimal
      | rewrite E; cbn [defined bind]; rewrite Hl in Hl'; clear E Hc Hl b;
        rename Hc' into Hc; rename Hl' into Hl
      | rewrite E; reflexivity ]
  end.

Lemma build_fname_overflow (fname folder file_format : buffer)
  (g f s : list ascii) (n : Z) :
  cstr fname = Some g -> length fname = NAME ->
  cstr folder = Some f -> cstr file_format = Some s ->
  NAME < length g + length (page_name f s n) + 1 ->
  build_fname fname folder file_format n = Undefined.
Proof.
  intros Hc Hl Hf Hs Hn.
  destruct (cstr_split _ _ Hf) as [Nf _].
  destruct (cstr_split _ _ Hs) as [Ns _].
  unfold page_name in Hn. repeat (rewrite length_app in Hn; simpl in Hn).
  unfold build_fname. rewrite Hf, Hs. cbn [defined bind].
  strcat_try Hc Hl.
  strcat_try Hc Hl.
  strcat_try Hc Hl.
  strcat_try Hc Hl.
  strcat_try Hc Hl.
  unfold sprintf_d.
  destruct (length (decimal n) + 1 <=? 10); cbn [defined bind];
    [|reflexivity].
  match goal with
  | |- context [strcat ?b (decimal n)] =>
      rewrite (strcat_overflow b _ (decimal n) Hc); [reflexivity|]
  end.
  rewrite Hl. repeat (rewrite length_app; simpl). lia.
Qed.

(** ** The end of the [while] loop *)

Lemma length_string_of_uint (d : Decimal.uint) :
  length (list_ascii_of_string (NilEmpty.string_of_uint d))
  = Decimal.nb_digits d.
Proof. induction d; simpl; congruence. Qed.

Lemma usize_nb_digits (d : Decimal.uint) :
  DecimalPos.Unsigned.usize d = N.of_nat (Decimal.nb_digits d).
Proof.
  induction d; cbn [DecimalPos.Unsigned.usize Decimal.nb_digits];
    rewrite ?IHd; lia.
Qed.

Lemma of_lu_bound (d : Decimal.uint) :
  (DecimalPos.Unsigned.of_lu d < 10 ^ DecimalPos.Unsigned.usize d)%N.
Proof.
  induction d;
    cbn [DecimalPos.Unsigned.of_lu DecimalPos.Unsigned.usize];
    rewrite ?N.pow_succ_r'; [rewrite N.pow_0_r|..]; lia.
Qed.

(** A positive number is below the power of ten of the length of its
    numeral. *)
Lemma decimal_bound (n : Z) :
  (0 < n)%Z -> (n < 10 ^ Z.of_nat (length (decimal n)))%Z.
Proof.
  destruct n as [|p|p]; try lia. intros _.
  assert (E : decimal (Z.pos p)
              = list_ascii_of_string
                  (NilEmpty.string_of_uint (Pos.to_uint p))).
  { unfold decimal. cbn [Z.to_int NilZero.string_of_int].
    unfold NilZero.string_of_uint.
    destruct (Pos.to_uint p) eqn:Ep; try reflexivity.
    now destruct (DecimalPos.Unsigned.to_uint_nonnil p). }
  rewrite E, length_string_of_uint.
  pose proof (of_lu_bound (Decimal.rev (Pos.to_uint p))) as H.
  rewrite <- DecimalPos.Unsigned.of_uint_alt in H.
  rewrite DecimalPos.Unsigned.of_to in H.
  rewrite usize_nb_digits, DecimalFacts.nb_digits_rev in H.
  apply N2Z.inj_lt in H. rewrite N2Z.inj_pow, nat_N_Z in H.
  exact H.
Qed.

Lemma sprintf_d_overflow (n : Z) :
  (1000000000 <= n)%Z -> sprintf_d n = None.
Proof.
  intros Hn. unfold sprintf_d.
  destruct (Nat.leb_spec (length (decimal n) + 1) 10) as [Hl|]; [|reflexivity].
  pose proof (decimal_bound n ltac:(lia)) as Hb.
  assert (10 ^ Z.of_nat (length (decimal n)) <= 10 ^ 9)%Z.
  { apply Z.pow_le_mono_r; lia. }
  lia.
Qed.

(** Takes the steps of [build_fname] one by one, whatever they give. *)
Ltac defined_cases :=
  repeat match goal with
         | |- context [defined ?o] =>
             destruct o; cbn [defined bind]; try reflexivity;
             try discriminate
         end.

Lemma build_fname_counter (fname folder file_format : buffer) (n : Z) :
  sprintf_d n = None ->
  build_fname fname folder file_format n = Undefined.
Proof.
  intros H. unfold build_fname. rewrite H. defined_cases.
Qed.

Lemma build_fname_not_fuel (fname folder file_format : buffer) (n : Z) :
  build_fname fname folder file_format n <> OutOfFuel.
Proof.
  unfold build_fname. defined_cases.
Qed.

Lemma counter_limit_aux (w : world) (folder file_format : buffer)
  (n : Z) (fuel : nat) (st : state) :
  (1000000000 <= n)%Z ->
  scan (S fuel) w folder file_format n st = Undefined.
Proof.
  intros Hn. cbn [scan].
  now rewrite build_fname_counter by now apply sprintf_d_overflow.
Qed.

(** The counter of a record cannot pass 999,999,999: from 1,000,000,000 on
    its numeral has ten digits and does not fit [iter_string[10]], so the
    round is undefined in every world, whatever the record. *)
Theorem counter_stops_at_ten_digits (w : world) (folder file_format : buffer)
  (n : Z) (fuel : nat) (st : state) :
  (1000000000 <= n)%Z ->
  scan (S fuel) w folder file_format n st = Undefined.
Proof.
  intros Hn. now apply counter_limit_aux.
Qed.

Lemma counter_stops_at_ten_digits_witness :
  scan 1 gap_world (block_of (lit "d")) (block_of (lit "s")) 1000000000
    initial = Undefined.
Proof.
  apply (counter_stops_at_ten_digits gap_world (block_of (lit "d"))
           (block_of (lit "s")) 1000000000 0 initial).
  lia.
Defined.

Lemma scan_ends_aux (w : world) (folder file_format : buffer)
  (fuel : nat) :
  forall (n : Z) (st : state),
    (Z.max 0 (1000000000 - n) < Z.of_nat fuel)%Z ->
    scan fuel w folder file_format n st <> OutOfFuel.
Proof.
  induction fuel as [|fuel IH]; intros n st Hfuel; [lia|].
  destruct (Z_lt_le_dec n 1000000000) as [Hn|Hn].
  - cbn [scan].
    destruct (build_fname (malloc w (nalloc st) NAME) folder file_format n)
      as [b| |] eqn:Eb; cbn [bind].
    + destruct (cstr b) as [path|]; cbn [defined bind]; [|discriminate].
      destruct (files w path) as [data|]; [|discriminate].
      destruct (n <? INT_MAX)%Z; [|discriminate].
      apply IH. lia.
    + discriminate.
    + now apply build_fname_not_fuel in Eb.
  - rewrite counter_limit_aux by assumption. discriminate.
Qed.

(** The [while] loop of a record always comes to an end, in every world:
    from counter [n] it makes at most 1,000,000,000 - n rounds with a page
    and one more, which finds no file or is undefined.  Fuel above that
    number is never used up. *)
Theorem scan_always_ends (w : world) (folder file_format : buffer)
  (fuel : nat) (n : Z) (st : state) :
  (Z.max 0 (1000000000 - n) < Z.of_nat fuel)%Z ->
  scan fuel w folder file_format n st <> OutOfFuel.
Proof. apply scan_ends_aux. Qed.

Lemma scan_always_ends_witness :
  scan 2 gap_world (block_of (lit "d")) (block_of (lit "s")) 999999999
    initial <> OutOfFuel.
Proof.
  apply (scan_always_ends gap_world (block_of (lit "d")) (block_of (lit "s"))
           2 999999999 initial).
  lia.
Defined.

(** ** Records that are not read from the manifest *)

Lemma scan_miss_local (w : world) (folder file_format : buffer)
  (f s : list ascii) (n : Z) (fuel : nat) (st : state) :
  cstr (malloc w (nalloc st) NAME) = Some [] ->
  cstr folder = Some f -> cstr file_format = Some s ->
  fits f s n ->
  files w (page_name f s n) = None ->
  scan (S fuel) w folder file_format n st
  = Ok (after_miss (page_name f s n) st).
Proof.
  intros Hg Hf Hs Hfit Hfile.
  destruct (build_fname_spec (malloc w (nalloc st) NAME) folder file_format
              f s n) as (b & Eb & Hb); auto using length_malloc.
  cbn [scan]. rewrite Eb. cbn [bind]. rewrite Hb. cbn [defined bind].
  now rewrite Hfile.
Qed.

(** On a manifest without any record the first round works on the two name
    blocks as [malloc] returned them: [fscanf] stores nothing, and the name
    probed is made of the strings that happen to be in these blocks. *)
Theorem empty_manifest_scans_what_malloc_left (w : world) (fuel : nat)
  (input f s : list ascii) :
  gap input ->
  cstr (malloc w 0 NAME) = Some f -> cstr (malloc w 1 NAME) = Some s ->
  cstr (malloc w 2 NAME) = Some [] ->
  fits f s 1 ->
  files w (page_name f s 1) = None ->
  round (S fuel) w
    {| trace_file := Some input;
       folder := malloc w 0 NAME;
       file_format := malloc w 1 NAME |} (alloc (alloc initial))
  = Ok ({| trace_file := Some [];
           folder := repeat NUL NAME;
           file_format := repeat NUL NAME |},
        after_miss (page_name f s 1) (alloc (alloc initial))).
Proof.
  intros Hin Hf Hs Hg Hfit Hfile. unfold round.
  cbn [trace_file folder file_format defined bind].
  rewrite (fscanf_ss_end input) by assumption. cbn [bind].
  rewrite (scan_miss_local w _ _ f s 1 fuel (alloc (alloc initial)))
    by assumption.
  cbn [bind]. rewrite !zero_loop_all by apply length_malloc. reflexivity.
Qed.

Lemma empty_manifest_scans_what_malloc_left_witness :
  round 1 leftover_world
    {| trace_file := Some [];
       folder := malloc leftover_world 0 NAME;
       file_format := malloc leftover_world 1 NAME |} (alloc (alloc initial))
  = Ok ({| trace_file := Some [];
           folder := repeat NUL NAME;
           file_format := repeat NUL NAME |},
        after_miss (page_name (lit "old") (lit "junk") 1)
          (alloc (alloc initial))).
Proof.
  apply (empty_manifest_scans_what_malloc_left leftover_world 0 []
           (lit "old") (lit "junk")).
  - constructor.
  - reflexivity.
  - reflexivity.
  - reflexivity.
  - fits_tac.
  - reflexivity.
Defined.

(** ** The manifest as a sequence of tokens *)

Lemma fscanf_ss_holds_nil (input : list ascii) (fo ff : buffer) :
  holds_records input [] -> fscanf_ss input fo ff = Ok ([], fo, ff).
Proof.
  intros H. inversion H as [ws Hws| |]; subst. now apply fscanf_ss_end.
Qed.

Lemma fscanf_ss_holds_cons (input f s : list ascii)
  (rs : list (list ascii * list ascii)) :
  holds_records input ((f, s) :: rs) ->
  exists rest,
    holds_records rest rs /\
    forall fo ff,
      fscanf_ss input fo ff
      = bind (stored f s fo ff) (fun p => Ok (rest, fst p, snd p)).
Proof.
  intros H.
  inversion H as [|ws f' ws' Hws Hf Hws'
                  |ws f' sep s' rest rs' Hws Hf Hsep Hsepne Hs Hrest Hrs];
    subst.
  - exists []. split; [apply holds_none; constructor|].
    intros fo ff. destruct Hf as (Hfne & Hfsp & _).
    unfold fscanf_ss, stored.
    rewrite scan_s_gap by assumption.
    rewrite (scan_s_word f ws' Hfne Hfsp) by now apply token_end_of_gap.
    destruct (store fo 0 f) as [fo'|]; cbn [defined bind]; [|reflexivity].
    now rewrite scan_s_end.
  - exists rest. split; [assumption|].
    intros fo ff. destruct Hf as (Hfne & Hfsp & _).
    destruct Hs as (Hsne & Hssp & _).
    unfold fscanf_ss, stored.
    rewrite scan_s_gap by assumption.
    rewrite (scan_s_word f (sep ++ s ++ rest) Hfne Hfsp)
      by now apply token_end_gap.
    destruct (store fo 0 f) as [fo'|]; cbn [defined bind]; [|reflexivity].
    rewrite scan_s_gap by assumption.
    rewrite (scan_s_word s rest Hsne Hssp Hrest).
    destruct s as [|c s]; [congruence|].
    destruct (store ff 0 (c :: s)) as [ff'|]; cbn [defined bind fst snd];
      reflexivity.
Qed.

Lemma read_page_with_manifest (w : world) (i1 i2 path data : list ascii)
  (st : state) :
  read_page (with_manifest w i1) path data st
  = read_page (with_manifest w i2) path data st.
Proof.
  rewrite !read_page_eq. unfold page_events, malloc.
  cbn [uninit with_manifest]. reflexivity.
Qed.

Lemma scan_with_manifest (w : world) (i1 i2 : list ascii)
  (fo ff : buffer) (fuel : nat) :
  forall (n : Z) (st : state),
    scan fuel (with_manifest w i1) fo ff n st
    = scan fuel (with_manifest w i2) fo ff n st.
Proof.
  induction fuel as [|fuel IH]; intros n st; [reflexivity|].
  cbn [scan]. unfold malloc. cbn [uninit files with_manifest].
  destruct (build_fname (map (uninit w (nalloc st)) (seq 0 NAME)) fo ff n)
    as [b| |]; cbn [bind]; [|reflexivity|reflexivity].
  destruct (cstr b) as [path|]; cbn [defined bind]; [|reflexivity].
  destruct (files w path) as [data|]; [|reflexivity].
  rewrite (read_page_with_manifest w i1 i2).
  destruct (n <? INT_MAX)%Z; [apply IH | reflexivity].
Qed.

Lemma rounds_same_records (w : world) (m1 m2 : list ascii) (fuel : nat)
  (B : Type) (k : state -> result B) (n : nat) :
  forall (rs : list (list ascii * list ascii)) (i1 i2 : list ascii)
         (fo ff : buffer) (st : state),
    holds_records i1 rs -> holds_records i2 rs ->
    bind (rounds n fuel (with_manifest w m1)
            {| trace_file := Some i1; folder := fo; file_format := ff |} st)
         (fun r => k (snd r))
    = bind (rounds n fuel (with_manifest w m2)
              {| trace_file := Some i2; folder := fo; file_format := ff |} st)
           (fun r => k (snd r)).
Proof.
  induction n as [|n IH]; intros rs i1 i2 fo ff st H1 H2; [reflexivity|].
  cbn [rounds]. unfold round. cbn [trace_file folder file_format defined bind].
  destruct rs as [|[f s] rs].
  - rewrite !fscanf_ss_holds_nil by assumption. cbn [bind].
    rewrite (scan_with_manifest w m1 m2).
    destruct (scan fuel (with_manifest w m2) fo ff 1 st) as [st1| |];
      cbn [bind]; [|reflexivity|reflexivity].
    destruct (zero_loop NAME 0 fo) as [fo1|]; cbn [defined bind];
      [|reflexivity].
    destruct (zero_loop NAME 0 ff) as [ff1|]; cbn [defined bind fst snd];
      [|reflexivity].
    apply (IH []); apply holds_none; constructor.
  - destruct (fscanf_ss_holds_cons i1 f s rs H1) as (r1 & Hr1 & E1).
    destruct (fscanf_ss_holds_cons i2 f s rs H2) as (r2 & Hr2 & E2).
    rewrite E1, E2.
    destruct (stored f s fo ff) as [[fo' ff']| |]; cbn [bind fst snd];
      [|reflexivity|reflexivity].
    rewrite (scan_with_manifest w m1 m2).
    destruct (scan fuel (with_manifest w m2) fo' ff' 1 st) as [st1| |];
      cbn [bind]; [|reflexivity|reflexivity].
    destruct (zero_loop NAME 0 fo') as [fo1|]; cbn [defined bind];
      [|reflexivity].
    destruct (zero_loop NAME 0 ff') as [ff1|]; cbn [defined bind fst snd];
      [|reflexivity].
    now apply (IH rs).
Qed.

(** The run reads the manifest as a sequence of tokens: two manifests that
    hold the same records, however the white space and the line ends lie
    between the fields, give the same run in every world (the same events
    and result, or the same failure). *)
Theorem run_depends_on_tokens_only (w : world) (fuel : nat)
  (i1 i2 : list ascii) (rs : list (list ascii * list ascii)) :
  holds_records i1 rs -> holds_records i2 rs ->
  main fuel (with_manifest w i1) = main fuel (with_manifest w i2).
Proof.
  intros H1 H2. unfold main.
  change (malloc (with_manifest w i1)) with (malloc (with_manifest w i2)).
  cbn [manifest with_manifest].
  exact (rounds_same_records w i1 i2 fuel _ (fun st => Ok (0%Z, st)) 400
           rs i1 i2 _ _ _ H1 H2).
Qed.

(** The record [d s] on one line, and spread over three lines with tabs. *)
Lemma run_depends_on_tokens_only_witness :
  main 3 (with_manifest gap_world (lit "d s" ++ [LF]))
  = main 3 (with_manifest gap_world
              (LF :: lit "d" ++ [LF; ascii_of_nat 9] ++ lit "s")).
Proof.
  apply (run_depends_on_tokens_only gap_world 3 (lit "d s" ++ [LF])
           (LF :: lit "d" ++ [LF; ascii_of_nat 9] ++ lit "s")
           [(lit "d", lit "s")]).
  - apply holds_d_s.
  - apply (holds_record [LF] (lit "d") [LF; ascii_of_nat 9] (lit "s") [] []).
    + repeat constructor.
    + word_tac.
    + repeat constructor.
    + discriminate.
    + word_tac.
    + exact I.
    + apply holds_none. constructor.
Defined.

(** ** More records than rounds *)

Lemma rounds_records_more (w : world) (fuel : nat) (jobs : list job)
  (more : list (list ascii * list ascii)) :
  clean w -> Forall (good w fuel) jobs ->
  forall (l : locals) (st : state),
    ready l (map fst jobs ++ more) ->
    exists l',
      rounds (length jobs) fuel w l st = Ok (l', run_jobs w jobs st) /\
      ready l' more.
Proof.
  intros Hw Hjobs. induction Hjobs as [|[[f s] datas] jobs Hj Hjobs IH];
    intros l st Hl.
  - exists l. now split.
  - cbn [map fst app] in Hl.
    destruct (round_record w fuel l st f s datas (map fst jobs ++ more)
                Hw Hl Hj) as (l1 & E1 & Hl1).
    destruct (IH l1 (scan_result w f s datas 1 st) Hl1) as (l' & E' & Hl').
    exists l'. split; [|assumption].
    cbn [length rounds]. rewrite E1. cbn [bind fst snd]. rewrite E'.
    reflexivity.
Qed.

Lemma holds_lines (n : nat) :
  forall ws, gap ws ->
             holds_records (ws ++ lines n) (repeat (lit "d", lit "s") n).
Proof.
  induction n as [|n IH]; intros ws Hws.
  - cbn [lines repeat concat]. rewrite app_nil_r. now apply holds_none.
  - change (ws ++ lines (S n))
      with (ws ++ lit "d" ++ lit " " ++ lit "s" ++ ([LF] ++ lines n)).
    cbn [repeat].
    apply (holds_record ws (lit "d") (lit " ") (lit "s") ([LF] ++ lines n)).
    + assumption.
    + word_tac.
    + repeat constructor.
    + discriminate.
    + word_tac.
    + reflexivity.
    + apply IH. repeat constructor.
Qed.

(** ** The end of the run *)

Lemma fscanf_ss_not_fuel (input : list ascii) (fo ff : buffer) :
  fscanf_ss input fo ff <> OutOfFuel.
Proof.
  unfold fscanf_ss. destruct (scan_s input) as [[t1 r1]|]; [|discriminate].
  destruct (store fo 0 t1); cbn [defined bind]; [|discriminate].
  destruct (scan_s r1) as [[t2 r2]|]; [|discriminate].
  destruct (store ff 0 t2); cbn [defined bind]; discriminate.
Qed.

Lemma round_not_fuel (w : world) (fuel : nat) (l : locals) (st : state) :
  (1000000000 <= Z.of_nat fuel)%Z -> round fuel w l st <> OutOfFuel.
Proof.
  intros Hfuel. unfold round.
  destruct (trace_file l) as [input|]; cbn [defined bind]; [|discriminate].
  destruct (fscanf_ss input (folder l) (file_format l))
    as [[[rest fo] ff]| |] eqn:E; cbn [bind].
  - destruct (scan fuel w fo ff 1 st) as [st1| |] eqn:Es; cbn [bind].
    + destruct (zero_loop NAME 0 fo); cbn [defined bind]; [|discriminate].
      destruct (zero_loop NAME 0 ff); cbn [defined bind]; discriminate.
    + discriminate.
    + apply scan_ends_aux in Es; [contradiction | lia].
  - discriminate.
  - now apply fscanf_ss_not_fuel in E.
Qed.

Lemma rounds_not_fuel (w : world) (fuel : nat) :
  (1000000000 <= Z.of_nat fuel)%Z ->
  forall (n : nat) (l : locals) (st : state),
    rounds n fuel w l st <> OutOfFuel.
Proof.
  intros Hfuel. induction n as [|n IH]; intros l st; [discriminate|].
  cbn [rounds].
  destruct (round fuel w l st) as [[l' st']| |] eqn:E; cbn [bind fst snd].
  - apply IH.
  - discriminate.
  - now apply round_not_fuel in E.
Qed.

(** The run comes to an end in every world: with fuel for 1,000,000,000
    rounds of the inner loop, [main] returns or is undefined, and never
    runs out of fuel. *)
Theorem run_always_ends (w : world) (fuel : nat) :
  (1000000000 <= Z.of_nat fuel)%Z -> main fuel w <> OutOfFuel.
Proof.
  intros Hfuel. unfold main.
  destruct (rounds 400 fuel w _ _) as [r| |] eqn:E; cbn [bind].
  - discriminate.
  - discriminate.
  - now apply rounds_not_fuel in E.
Qed.

Lemma run_always_ends_witness :
  main (Z.to_nat 1000000000) stray_world <> OutOfFuel.
Proof.
  apply (run_always_ends stray_world (Z.to_nat 1000000000)).
  rewrite Z2Nat.id; lia.
Defined.

(** ** The fields of a record in their blocks *)

(** [fscanf] before a record puts the folder and the stem into the two
    blocks as strings, whatever the blocks held before, and stops right
    after the stem: reading the blocks back gives the two fields. *)
Theorem record_fields_read_back (ws f sep s rest : list ascii)
  (fo ff : buffer) :
  gap ws -> word f -> gap sep -> sep <> [] -> word s -> token_end rest ->
  length fo = NAME -> length ff = NAME ->
  exists fo' ff',
    fscanf_ss (ws ++ f ++ sep ++ s ++ rest) fo ff = Ok (rest, fo', ff') /\
    cstr fo' = Some f /\ cstr ff' = Some s /\
    length fo' = NAME /\ length ff' = NAME.
Proof.
  intros Hws Hf Hsep Hsepne Hs Hrest Hlo Hlf.
  destruct (fscanf_ss_record ws f sep s rest fo ff Hws Hf Hsep Hsepne Hs
              Hrest Hlo Hlf) as (fo' & ff' & E & Hcfo & Hlfo & Hcff & Hlff).
  exists fo', ff'. repeat split; assumption.
Qed.

(** Blocks that hold an older, longer record are overwritten from their
    start. *)
Lemma record_fields_read_back_witness :
  exists fo' ff',
    fscanf_ss ([] ++ lit "d" ++ lit " " ++ lit "s" ++ [LF])
      (block_of (lit "older")) (block_of (lit "record"))
    = Ok ([LF], fo', ff') /\
    cstr fo' = Some (lit "d") /\ cstr ff' = Some (lit "s") /\
    length fo' = NAME /\ length ff' = NAME.
Proof.
  apply (record_fields_read_back [] (lit "d") (lit " ") (lit "s") [LF]
           (block_of (lit "older")) (block_of (lit "record"))).
  - constructor.
  - word_tac.
  - repeat constructor.
  - discriminate.
  - word_tac.
  - reflexivity.
  - reflexivity.
  - reflexivity.
Defined.

(** * Scans in any world *)

(** ** The name built when [build_fname] succeeds *)

Lemma build_fname_no_fname (fname folder file_format : buffer) (n : Z) :
  cstr fname = None -> build_fname fname folder file_format n = Undefined.
Proof.
  intros E. unfold build_fname, strcat. rewrite E. reflexivity.
Qed.

Lemma build_fname_no_folder (fname folder file_format : buffer) (n : Z) :
  cstr folder = None -> build_fname fname folder file_format n = Undefined.
Proof.
  intros E. unfold build_fname. rewrite E.
  destruct (strcat fname (lit "./")); reflexivity.
Qed.

Lemma build_fname_no_stem (fname folder file_format : buffer) (n : Z) :
  cstr file_format = None ->
  build_fname fname folder file_format n = Undefined.
Proof.
  intros E. unfold build_fname. rewrite E.
  destruct (strcat fname (lit "./")) as [b1|]; cbn [defined bind];
    [|reflexivity].
  destruct (cstr folder) as [f|]; cbn [defined bind]; [|reflexivity].
  destruct (strcat b1 f) as [b2|]; cbn [defined bind]; [|reflexivity].
  destruct (strcat b2 (lit "/")); reflexivity.
Qed.

(** Whatever the blocks hold: when the six [strcat]s succeed, the three
    blocks held strings, and the name built is the documented name after
    the string that was in [fname]. *)
Lemma build_fname_ok (fname folder file_format b : buffer) (n : Z) :
  length fname = NAME ->
  build_fname fname folder file_format n = Ok b ->
  exists g f s,
    cstr fname = Some g /\ cstr folder = Some f /\
    cstr file_format = Some s /\ cstr b = Some (g ++ page_name f s n).
Proof.
  intros Hl H.
  destruct (cstr fname) as [g|] eqn:Eg;
    [|rewrite build_fname_no_fname in H by assumption; discriminate].
  destruct (cstr folder) as [f|] eqn:Ef;
    [|rewrite build_fname_no_folder in H by assumption; discriminate].
  destruct (cstr file_format) as [s|] eqn:Es;
    [|rewrite build_fname_no_stem in H by assumption; discriminate].
  exists g, f, s. repeat split.
  destruct (sprintf_d n) as [d|] eqn:Ed;
    [|rewrite build_fname_counter in H by assumption; discriminate].
  assert (Hd : length (decimal n) + 1 <= 10).
  { unfold sprintf_d in Ed.
    destruct (Nat.leb_spec (length (decimal n) + 1) 10); [assumption|].
    discriminate. }
  destruct (Nat.le_gt_cases (length g + length (page_name f s n) + 1) NAME)
    as [Hfit|Hover].
  - destruct (build_fname_from fname folder file_format g f s n
                Eg Hl Ef Es Hd Hfit) as (b' & Eb & Hb).
    rewrite Eb in H. apply Ok_inj in H. now subst b'.
  - rewrite (build_fname_overflow fname folder file_format g f s n)
      in H by assumption.
    discriminate.
Qed.

(** ** The events of a scan that has come to its end *)

Lemma after_hit_eq (w : world) (path data : list ascii) (st : state) :
  after_hit w path data st =
  {| nalloc := S (S (nalloc st));
     trace := trace st
              ++ Printf (path ++ lit " " ++ [LF])
                 :: Fopen path true
                 :: page_events w (S (nalloc st)) path data;
     leaked := leaked st
               ++ [(S (nalloc st),
                    fscanf_8192c data (malloc w (S (nalloc st)) PAGE))] |}.
Proof.
  unfold after_hit. rewrite read_page_eq.
  cbn [nalloc trace leaked emit alloc].
  now rewrite <- !app_assoc.
Qed.

(** A scan that returns has found strings in the two name blocks. *)
Lemma scan_ok_strings (w : world) (folder file_format : buffer)
  (fuel : nat) (n : Z) (st st' : state) :
  scan fuel w folder file_format n st = Ok st' ->
  exists f s, cstr folder = Some f /\ cstr file_format = Some s.
Proof.
  destruct fuel as [|fuel]; [discriminate|]. cbn [scan].
  destruct (build_fname (malloc w (nalloc st) NAME) folder file_format n)
    as [b| |] eqn:Eb; cbn [bind]; try discriminate.
  intros _.
  apply build_fname_ok in Eb as (g & f & s & _ & Hf & Hs & _);
    [|apply length_malloc].
  now exists f, s.
Qed.

(** The state a scan returns: its events, the blocks it took from
    [malloc], and the blocks it leaves behind. *)
Lemma scan_ok (w : world) (folder file_format : buffer) (f s : list ascii) :
  cstr folder = Some f -> cstr file_format = Some s ->
  forall (fuel : nat) (n : Z) (st st' : state),
    scan fuel w folder file_format n st = Ok st' ->
    exists new blocks,
      trace st' = trace st ++ new /\
      scan_events w f s n (nalloc st) new /\
      nalloc st' = nalloc st + (2 * length (reads new) + 1) /\
      leaked st' = leaked st ++ blocks /\
      map snd blocks = map snd (reads new).
Proof.
  intros Hf Hs. induction fuel as [|fuel IH]; intros n st st' H;
    [discriminate|].
  cbn [scan] in H.
  destruct (build_fname (malloc w (nalloc st) NAME) folder file_format n)
    as [b| |] eqn:Eb; cbn [bind] in H; try discriminate.
  apply build_fname_ok in Eb as (g & f' & s' & Hg & Hf' & Hs' & Hb);
    [|apply length_malloc].
  assert (f' = f) by congruence. assert (s' = s) by congruence. subst f' s'.
  rewrite Hb in H. cbn [defined bind] in H.
  destruct (files w (g ++ page_name f s n)) as [data|] eqn:Efile.
  - destruct (n <? INT_MAX)%Z; [|discriminate].
    change (read_page w (g ++ page_name f s n) data _)
      with (after_hit w (g ++ page_name f s n) data st) in H.
    apply IH in H as (new & blocks & Htr & Hev & Hn & Hl & Hb').
    rewrite after_hit_eq in Htr, Hev, Hn, Hl.
    cbn [trace nalloc leaked] in Htr, Hev, Hn, Hl.
    exists (Printf ((g ++ page_name f s n) ++ lit " " ++ [LF])
            :: Fopen (g ++ page_name f s n) true
            :: page_events w (S (nalloc st)) (g ++ page_name f s n) data
            ++ new),
           ((S (nalloc st),
             fscanf_8192c data (malloc w (S (nalloc st)) PAGE)) :: blocks).
    split; [|split; [|split; [|split]]].
    + rewrite Htr, <- app_assoc. reflexivity.
    + now apply scan_events_hit.
    + rewrite Hn. cbn [reads flat_map page_events app length].
      fold (reads new). lia.
    + rewrite Hl, <- app_assoc. reflexivity.
    + cbn [reads flat_map page_events app map snd]. fold (reads new).
      now rewrite Hb'.
  - apply Ok_inj in H. subst st'.
    exists [Printf ((g ++ page_name f s n) ++ lit " " ++ [LF]);
            Fopen (g ++ page_name f s n) false], [].
    cbn [trace nalloc leaked emit alloc reads flat_map app length map].
    split; [now rewrite <- app_assoc|].
    split; [now apply scan_events_miss|].
    split; [lia|]. split; [now rewrite app_nil_r | reflexivity].
Qed.

(** ** What the events of a scan say *)

Lemma scan_events_page_reads (w : world) (f s : list ascii) (n : Z)
  (id : nat) (tr : list event) :
  scan_events w f s n id tr -> page_reads w tr.
Proof.
  induction 1 as [n id g Hg Hfile | n id g data tr Hg Hfile _ IH].
  - apply page_reads_miss.
  - cbn [page_events app].
    apply (page_reads_hit w (g ++ page_name f s n) data); try assumption.
    + apply length_fscanf_8192c, length_malloc.
    + apply fscanf_8192c_prefix.
    + intros Hd. apply fscanf_8192c_full; [apply length_malloc | assumption].
    + intros Hd. rewrite fscanf_8192c_short by assumption.
      now rewrite firstn_app, firstn_all, Nat.sub_diag, firstn_O, app_nil_r.
Qed.

Lemma scan_events_fourth_byte (w : world) (f s : list ascii) (n : Z)
  (id : nat) (tr : list event) :
  scan_events w f s n id tr -> fourth_byte_reported w tr.
Proof.
  induction 1 as [n id g Hg Hfile | n id g data tr Hg Hfile _ IH].
  - apply fourth_byte_miss.
  - cbn [page_events app].
    apply (fourth_byte_hit w (g ++ page_name f s n) data); try assumption.
    intros Hd. rewrite fscanf_8192c_offset_3 by assumption.
    apply nth_error_nth'. lia.
Qed.

Lemma scan_events_reported (w : world) (f s : list ascii) (n : Z)
  (id : nat) (tr : list event) :
  scan_events w f s n id tr -> reported w tr.
Proof.
  induction 1 as [n id g Hg Hfile | n id g data tr Hg Hfile _ IH].
  - apply reported_miss.
  - cbn [page_events app].
    apply (reported_hit w (g ++ page_name f s n) data); try assumption.
    + apply nth_error_nth'.
      rewrite length_fscanf_8192c by apply length_malloc.
      pose proof PAGE_ge_4. lia.
    + intros c Hc.
      assert (4 <= length data) as Hlen.
      { assert (3 < length data); [|lia].
        apply nth_error_Some. congruence. }
      rewrite fscanf_8192c_offset_3 by assumption.
      apply (nth_error_nth data 3 NUL) in Hc. exact Hc.
Qed.

(** The events of a scan that returns. *)
Lemma scan_ok_events (w : world) (folder file_format : buffer)
  (fuel : nat) (n : Z) (st st' : state) :
  scan fuel w folder file_format n st = Ok st' ->
  exists f s new,
    cstr folder = Some f /\ cstr file_format = Some s /\
    trace st' = trace st ++ new /\ scan_events w f s n (nalloc st) new.
Proof.
  intros H.
  destruct (scan_ok_strings w folder file_format fuel n st st' H)
    as (f & s & Hf & Hs).
  destruct (scan_ok w folder file_format f s Hf Hs fuel n st st' H)
    as (new & blocks & Htr & Hev & _).
  now exists f, s, new.
Qed.

(** C4. In every world and for every record, a scan that comes to its end
    has read each page file it opened into a block of 8192 bytes whose
    start is the first 8192 bytes of the file: the whole block when the
    file has that many, and the whole file when it is shorter, in which
    case the page counts like any other (its line is printed and the scan
    goes on to the next name). *)
Theorem every_page_block_holds_file_bytes (w : world)
  (folder file_format : buffer) (fuel : nat) (n : Z) (st st' : state) :
  scan fuel w folder file_format n st = Ok st' ->
  exists new, trace st' = trace st ++ new /\ page_reads w new.
Proof.
  intros H.
  destruct (scan_ok_events w folder file_format fuel n st st' H)
    as (f & s & new & _ & _ & Htr & Hev).
  exists new. split; [assumption|].
  now apply (scan_events_page_reads w f s n (nalloc st)).
Qed.

(** The scan of record [d s] in [reused_world], as [main] starts it. *)
Lemma every_page_block_holds_file_bytes_witness :
  exists st' new,
    scan 3 reused_world (block_of (lit "d")) (block_of (lit "s")) 1
      (alloc (alloc initial)) = Ok st' /\
    trace st' = trace (alloc (alloc initial)) ++ new /\
    page_reads reused_world new.
Proof.
  destruct (scan 3 reused_world (block_of (lit "d")) (block_of (lit "s")) 1
              (alloc (alloc initial))) as [st'| |] eqn:E.
  - destruct (every_page_block_holds_file_bytes reused_world
                (block_of (lit "d")) (block_of (lit "s")) 3 1
                (alloc (alloc initial)) st' E) as (new & Htr & Hp).
    exists st', new. repeat split; assumption.
  - vm_compute in E. discriminate E.
  - vm_compute in E. discriminate E.
Defined.

(** C10. In every world and for every record, a scan that comes to its end
    has printed, for each page it read from a file of at least four bytes,
    one byte: the byte at offset 3 of the file. *)
Theorem fourth_byte_of_file_is_reported (w : world)
  (folder file_format : buffer) (fuel : nat) (n : Z) (st st' : state) :
  scan fuel w folder file_format n st = Ok st' ->
  exists new, trace st' = trace st ++ new /\ fourth_byte_reported w new.
Proof.
  intros H.
  destruct (scan_ok_events w folder file_format fuel n st st' H)
    as (f & s & new & _ & _ & Htr & Hev).
  exists new. split; [assumption|].
  now apply (scan_events_fourth_byte w f s n (nalloc st)).
Qed.

Lemma fourth_byte_of_file_is_reported_witness :
  exists st' new,
    scan 3 reused_world (block_of (lit "d")) (block_of (lit "s")) 1
      (alloc (alloc initial)) = Ok st' /\
    trace st' = trace (alloc (alloc initial)) ++ new /\
    fourth_byte_reported reused_world new.
Proof.
  destruct (scan 3 reused_world (block_of (lit "d")) (block_of (lit "s")) 1
              (alloc (alloc initial))) as [st'| |] eqn:E.
  - destruct (fourth_byte_of_file_is_reported reused_world
                (block_of (lit "d")) (block_of (lit "s")) 3 1
                (alloc (alloc initial)) st' E) as (new & Htr & Hp).
    exists st', new. repeat split; assumption.
  - vm_compute in E. discriminate E.
  - vm_compute in E. discriminate E.
Defined.

(** C7, as the program has it.  In every world and for every record, a
    scan that comes to its end has printed every name right before probing
    it, the last one included, and has printed one byte after every page
    it read: the byte at offset 3 of the page block, which is the byte at
    offset 3 of the file when the file has at least four bytes. *)
Theorem probes_and_bytes_are_reported (w : world)
  (folder file_format : buffer) (fuel : nat) (n : Z) (st st' : state) :
  scan fuel w folder file_format n st = Ok st' ->
  exists new, trace st' = trace st ++ new /\ reported w new.
Proof.
  intros H.
  destruct (scan_ok_events w folder file_format fuel n st st' H)
    as (f & s & new & _ & _ & Htr & Hev).
  exists new. split; [assumption|].
  now apply (scan_events_reported w f s n (nalloc st)).
Qed.

Lemma probes_and_bytes_are_reported_witness :
  exists st' new,
    scan 3 reused_world (block_of (lit "d")) (block_of (lit "s")) 1
      (alloc (alloc initial)) = Ok st' /\
    trace st' = trace (alloc (alloc initial)) ++ new /\
    reported reused_world new.
Proof.
  destruct (scan 3 reused_world (block_of (lit "d")) (block_of (lit "s")) 1
              (alloc (alloc initial))) as [st'| |] eqn:E.
  - destruct (probes_and_bytes_are_reported reused_world
                (block_of (lit "d")) (block_of (lit "s")) 3 1
                (alloc (alloc initial)) st' E) as (new & Htr & Hp).
    exists st', new. repeat split; assumption.
  - vm_compute in E. discriminate E.
  - vm_compute in E. discriminate E.
Defined.

(** Against C7 as it is written.  Page 1 of [short_world] has two bytes;
    the scan reads it and prints a byte for it, which is no byte of the
    file. *)
Lemma short_page_byte_is_not_from_file :
  ~ (exists st' new,
       scan 2 short_world (block_of (lit "d")) (block_of (lit "s")) 1 initial
         = Ok st' /\
       trace st' = trace initial ++ new /\
       reported_from_file short_world new).
Proof.
  intros (st' & new & E & Htr & Hrep).
  assert (Hw : clean short_world) by (intros id; reflexivity).
  assert (Hp : pages_from short_world (lit "d") (lit "s") [lit "ab"] 1).
  { cbn [pages_from]. split; [fits_tac|]. split; [reflexivity|].
    split; [fits_tac | reflexivity]. }
  rewrite (scan_run short_world (block_of (lit "d")) (block_of (lit "s"))
             (lit "d") (lit "s") [lit "ab"] Hw eq_refl eq_refl 1 initial 2 Hp)
    in E by (cbn [length]; lia).
  apply Ok_inj in E. subst st'.
  rewrite scan_result_trace in Htr. cbn [trace initial app] in Htr.
  subst new. cbn [record_trace page_events app] in Hrep.
  inversion Hrep as [|path data page b tr Hfile Hb Hrest]; subst.
  change (files short_world (page_name (lit "d") (lit "s") 1))
    with (Some (lit "ab")) in Hfile.
  injection Hfile as <-. discriminate Hb.
Qed.

(** ** Scans that stop before the last page *)

Lemma scan_step_hit (w : world) (folder file_format : buffer)
  (g f s data : list ascii) (n : Z) (fuel : nat) (st : state) :
  cstr (malloc w (nalloc st) NAME) = Some g ->
  cstr folder = Some f -> cstr file_format = Some s ->
  length (decimal n) + 1 <= 10 ->
  length g + length (page_name f s n) + 1 <= NAME ->
  (n < INT_MAX)%Z ->
  files w (g ++ page_name f s n) = Some data ->
  scan (S fuel) w folder file_format n st
  = scan fuel w folder file_format (n + 1)
      (after_hit w (g ++ page_name f s n) data st).
Proof.
  intros Hg Hf Hs Hd Hn Hint Hfile.
  destruct (build_fname_from (malloc w (nalloc st) NAME) folder file_format
              g f s n) as (b & Eb & Hb); auto using length_malloc.
  cbn [scan]. rewrite Eb. cbn [bind]. rewrite Hb. cbn [defined bind].
  rewrite Hfile. apply Z.ltb_lt in Hint. rewrite Hint. reflexivity.
Qed.

Lemma scan_step_miss (w : world) (folder file_format : buffer)
  (g f s : list ascii) (n : Z) (fuel : nat) (st : state) :
  cstr (malloc w (nalloc st) NAME) = Some g ->
  cstr folder = Some f -> cstr file_format = Some s ->
  length (decimal n) + 1 <= 10 ->
  length g + length (page_name f s n) + 1 <= NAME ->
  files w (g ++ page_name f s n) = None ->
  scan (S fuel) w folder file_format n st
  = Ok (after_miss (g ++ page_name f s n) st).
Proof.
  intros Hg Hf Hs Hd Hn Hfile.
  destruct (build_fname_from (malloc w (nalloc st) NAME) folder file_format
              g f s n) as (b & Eb & Hb); auto using length_malloc.
  cbn [scan]. rewrite Eb. cbn [bind]. rewrite Hb. cbn [defined bind].
  now rewrite Hfile.
Qed.

(** C3.  The block of [fname] is not initialised: when the block taken for
    the second round holds a string [g], the second name probed is [g]
    followed by the name of page 2.  If no file has that name, the scan
    reads page 1 and stops, whether page 2 exists or not. *)
Theorem stale_block_ends_scan_early (w : world) (folder file_format : buffer)
  (g f s data : list ascii) (fuel : nat) (st : state) :
  cstr (malloc w (nalloc st) NAME) = Some [] ->
  cstr (malloc w (S (S (nalloc st))) NAME) = Some g ->
  cstr folder = Some f -> cstr file_format = Some s ->
  fits f s 1 ->
  length g + length (page_name f s 2) + 1 <= NAME ->
  files w (page_name f s 1) = Some data ->
  files w (g ++ page_name f s 2) = None ->
  exists st',
    scan (S (S fuel)) w folder file_format 1 st = Ok st' /\
    probes (trace st')
    = probes (trace st)
      ++ [(page_name f s 1, true); (g ++ page_name f s 2, false)] /\
    length (reads (trace st')) = length (reads (trace st)) + 1.
Proof.
  intros Hg1 Hg2 Hf Hs (Hd1 & Hn1 & Hint) Hn2 Hfile1 Hfile2.
  exists (after_miss (g ++ page_name f s 2)
            (after_hit w (page_name f s 1) data st)).
  split.
  - rewrite (scan_step_hit w folder file_format [] f s data 1 (S fuel) st)
      by assumption.
    cbn [app]. change (1 + 1)%Z with 2%Z.
    apply (scan_step_miss w folder file_format g f s 2 fuel);
      first [assumption | apply Nat.leb_le; reflexivity].
  - unfold after_miss. cbn [trace emit alloc]. rewrite after_hit_eq.
    cbn [trace]. unfold page_events.
    rewrite !probes_app, !reads_app, !length_app.
    cbn [probes reads flat_map app length]. rewrite <- !app_assoc.
    split; [reflexivity | lia].
Qed.

(** Pages 1 and 2 of record [d s] exist in [reused_world]; the scan reads
    page 1 and then probes a name that starts with [stale_bytes]. *)
Lemma stale_block_ends_scan_early_witness :
  files reused_world (page_name (lit "d") (lit "s") 2)
    = Some (lit "page two") /\
  exists st',
    scan 2 reused_world (block_of (lit "d")) (block_of (lit "s")) 1
      (alloc (alloc initial)) = Ok st' /\
    probes (trace st')
    = probes (trace (alloc (alloc initial)))
      ++ [(page_name (lit "d") (lit "s") 1, true);
          (stale_bytes ++ page_name (lit "d") (lit "s") 2, false)] /\
    length (reads (trace st'))
    = length (reads (trace (alloc (alloc initial)))) + 1.
Proof.
  split; [reflexivity|].
  apply (stale_block_ends_scan_early reused_world (block_of (lit "d"))
           (block_of (lit "s")) stale_bytes (lit "d") (lit "s")
           (lit "page one") 0 (alloc (alloc initial))).
  - reflexivity.
  - reflexivity.
  - reflexivity.
  - reflexivity.
  - fits_tac.
  - apply Nat.leb_le. vm_compute. reflexivity.
  - reflexivity.
  - reflexivity.
Defined.

(** ** Names that do not fit, in any world *)

Lemma scan_overflow (w : world) (folder file_format : buffer)
  (f s : list ascii) (n : Z) (fuel : nat) (st : state) :
  cstr folder = Some f -> cstr file_format = Some s ->
  NAME < length (page_name f s n) + 1 ->
  scan (S fuel) w folder file_format n st = Undefined.
Proof.
  intros Hf Hs Hn. cbn [scan].
  destruct (cstr (malloc w (nalloc st) NAME)) as [g|] eqn:Eg.
  - rewrite (build_fname_overflow (malloc w (nalloc st) NAME) folder
               file_format g f s n);
      auto using length_malloc. lia.
  - now rewrite build_fname_no_fname.
Qed.

(** A record whose page name with its terminator needs more than the 100
    bytes of [fname] makes the probe of that page undefined, in every
    world: whatever the block of [fname] holds, some [strcat] writes past
    its end or finds no string to append to.  Two fields of 60 bytes,
    each within the 99 bytes the documentation allows, are enough. *)
Theorem long_name_overflows_fname (w : world) (folder file_format : buffer)
  (f s : list ascii) (n : Z) (fuel : nat) (st : state) :
  cstr folder = Some f -> cstr file_format = Some s ->
  NAME < length (page_name f s n) + 1 ->
  scan (S fuel) w folder file_format n st = Undefined.
Proof. apply scan_overflow. Qed.

Lemma long_name_overflows_fname_witness :
  scan 1 reused_world (block_of (repeat "a"%char 60))
    (block_of (repeat "b"%char 60)) 1 (alloc (alloc initial)) = Undefined.
Proof.
  apply (long_name_overflows_fname reused_world
           (block_of (repeat "a"%char 60)) (block_of (repeat "b"%char 60))
           (repeat "a"%char 60) (repeat "b"%char 60) 1 0
           (alloc (alloc initial))).
  - reflexivity.
  - reflexivity.
  - apply Nat.ltb_lt. vm_compute. reflexivity.
Defined.

Lemma rounds_S (n fuel : nat) (w : world) (l : locals) (st : state) :
  rounds (S n) fuel w l st
  = bind (round fuel w l st) (fun r => rounds n fuel w (fst r) (snd r)).
Proof. reflexivity. Qed.

(** C8.  A record whose two fields are words, so that each fits its block,
    but whose first page name does not fit [fname], makes the whole run
    undefined in the round that reads it, in every world: no later record
    is processed and [main] does not return. *)
Theorem oversized_record_makes_run_undefined (w : world) (fuel : nat)
  (input f s : list ascii) (rs : list (list ascii * list ascii)) :
  manifest w = Some input ->
  holds_records input ((f, s) :: rs) ->
  s <> [] ->
  NAME < length (page_name f s 1) + 1 ->
  main (S fuel) w = Undefined.
Proof.
  intros Hm Hin Hs Hn. unfold main.
  change 400 with (S 399). rewrite rounds_S.
  assert (E : round (S fuel) w
                {| trace_file := manifest w;
                   folder := malloc w 0 NAME;
                   file_format := malloc w 1 NAME |} (alloc (alloc initial))
              = Undefined).
  { unfold round. cbn [trace_file folder file_format]. rewrite Hm.
    cbn [defined bind].
    inversion Hin as [|ws f' ws' Hws Hf Hws'
                      |ws f' sep s' rest rs' Hws Hf Hsep Hsepne Hs' Hrest Hrs];
      subst; [congruence|].
    destruct (fscanf_ss_record ws f sep s rest (malloc w 0 NAME)
                (malloc w 1 NAME) Hws Hf Hsep Hsepne Hs' Hrest
                (length_malloc w 0 NAME) (length_malloc w 1 NAME))
      as (fo' & ff' & E & Hcfo & _ & Hcff & _).
    rewrite E. cbn [bind].
    now rewrite (scan_overflow w fo' ff' f s 1 fuel). }
  rewrite E. reflexivity.
Qed.

Lemma oversized_record_makes_run_undefined_witness :
  main 1 oversized_world = Undefined.
Proof.
  apply (oversized_record_makes_run_undefined oversized_world 0
           (repeat "a"%char 60 ++ lit " " ++ repeat "b"%char 60
            ++ [LF] ++ lit "d s" ++ [LF])
           (repeat "a"%char 60) (repeat "b"%char 60) [(lit "d", lit "s")]).
  - reflexivity.
  - apply (holds_record [] (repeat "a"%char 60) (lit " ")
             (repeat "b"%char 60) ([LF] ++ lit "d s" ++ [LF])
             [(lit "d", lit "s")]).
    + constructor.
    + word_tac.
    + repeat constructor.
    + discriminate.
    + word_tac.
    + reflexivity.
    + apply (holds_record [LF] (lit "d") (lit " ") (lit "s") [LF] []).
      * repeat constructor.
      * word_tac.
      * repeat constructor.
      * discriminate.
      * word_tac.
      * reflexivity.
      * apply holds_none. repeat constructor.
  - discriminate.
  - apply Nat.ltb_lt. vm_compute. reflexivity.
Defined.

(** ** Blocks a scan leaves behind *)

Lemma scan_events_read_lengths (w : world) (f s : list ascii) (n : Z)
  (id : nat) (tr : list event) :
  scan_events w f s n id tr ->
  Forall (fun r => length (snd r) = PAGE) (reads tr).
Proof.
  induction 1 as [n id g Hg Hfile | n id g data tr Hg Hfile _ IH].
  - constructor.
  - cbn [reads flat_map page_events app]. fold (reads tr).
    constructor; [|exact IH].
    cbn [snd]. apply length_fscanf_8192c, length_malloc.
Qed.

(** In every world, a scan that comes to its end after reading k pages has
    taken 2k+1 blocks from [malloc] and leaves k of them behind, without a
    pointer to them and never freed: the page blocks, of 8192 bytes each,
    with the bytes that were read into them. *)
Theorem scan_leaks_every_page_block (w : world) (folder file_format : buffer)
  (fuel : nat) (n : Z) (st st' : state) :
  scan fuel w folder file_format n st = Ok st' ->
  exists new blocks,
    trace st' = trace st ++ new /\
    nalloc st' = nalloc st + (2 * length (reads new) + 1) /\
    leaked st' = leaked st ++ blocks /\
    map snd blocks = map snd (reads new) /\
    Forall (fun b => length (snd b) = PAGE) blocks.
Proof.
  intros H.
  destruct (scan_ok_strings w folder file_format fuel n st st' H)
    as (f & s & Hf & Hs).
  destruct (scan_ok w folder file_format f s Hf Hs fuel n st st' H)
    as (new & blocks & Htr & Hev & Hn & Hl & Hb).
  exists new, blocks. repeat split; try assumption.
  apply scan_events_read_lengths in Hev.
  apply (Forall_map snd (fun p : buffer => length p = PAGE)).
  rewrite Hb.
  now apply (Forall_map snd (fun p : buffer => length p = PAGE)).
Qed.

Lemma scan_leaks_every_page_block_witness :
  exists st' new blocks,
    scan 3 gap_world (block_of (lit "d")) (block_of (lit "s")) 1
      (alloc (alloc initial)) = Ok st' /\
    trace st' = trace (alloc (alloc initial)) ++ new /\
    nalloc st' = nalloc (alloc (alloc initial))
                 + (2 * length (reads new) + 1) /\
    leaked st' = leaked (alloc (alloc initial)) ++ blocks /\
    map snd blocks = map snd (reads new) /\
    Forall (fun b => length (snd b) = PAGE) blocks.
Proof.
  destruct (scan 3 gap_world (block_of (lit "d")) (block_of (lit "s")) 1
              (alloc (alloc initial))) as [st'| |] eqn:E.
  - destruct (scan_leaks_every_page_block gap_world (block_of (lit "d"))
                (block_of (lit "s")) 3 1 (alloc (alloc initial)) st' E)
      as (new & blocks & H).
    now exists st', new, blocks.
  - vm_compute in E. discriminate E.
  - vm_compute in E. discriminate E.
Defined.

(** ** The byte printed for a short page, in any world *)

Lemma scan_events_short_pages (w : world) (f s : list ascii) (n : Z)
  (id : nat) (tr : list event) :
  scan_events w f s n id tr -> short_pages_print_stale w tr.
Proof.
  induction 1 as [n id g Hg Hfile | n id g data tr Hg Hfile _ IH].
  - apply short_pages_miss.
  - cbn [page_events app].
    apply (short_pages_hit w (g ++ page_name f s n) data); try assumption.
    intros Hlen. exists (S id).
    pose proof PAGE_ge_4 as HP.
    rewrite fscanf_8192c_short by lia.
    split; [reflexivity|].
    rewrite app_nth2 by lia. rewrite nth_skipn.
    replace (length data + (3 - length data)) with 3 by lia.
    apply nth_malloc. lia.
Qed.

(** In every world, a scan that comes to its end has treated a page file of
    fewer than four bytes like any other (opened, read, one byte printed,
    next name probed), and the byte printed for it is no byte of the file:
    it is the byte that [malloc] left at offset 3 of a block. *)
Theorem short_page_prints_stale_byte (w : world)
  (folder file_format : buffer) (fuel : nat) (n : Z) (st st' : state) :
  scan fuel w folder file_format n st = Ok st' ->
  exists new, trace st' = trace st ++ new /\ short_pages_print_stale w new.
Proof.
  intros H.
  destruct (scan_ok_events w folder file_format fuel n st st' H)
    as (f & s & new & _ & _ & Htr & Hev).
  exists new. split; [assumption|].
  now apply (scan_events_short_pages w f s n (nalloc st)).
Qed.

Lemma short_page_prints_stale_byte_witness :
  exists st' new,
    scan 2 short_world (block_of (lit "d")) (block_of (lit "s")) 1 initial
      = Ok st' /\
    trace st' = trace initial ++ new /\
    short_pages_print_stale short_world new.
Proof.
  destruct (scan 2 short_world (block_of (lit "d")) (block_of (lit "s")) 1
              initial) as [st'| |] eqn:E.
  - destruct (short_page_prints_stale_byte short_world (block_of (lit "d"))
                (block_of (lit "s")) 2 1 initial st' E) as (new & H).
    now exists st', new.
  - vm_compute in E. discriminate E.
  - vm_compute in E. discriminate E.
Defined.

(** ** Counting the probes of a run, in any world *)

Lemma scan_events_counts (w : world) (f s : list ascii) (n : Z)
  (id : nat) (tr : list event) :
  scan_events w f s n id tr ->
  length (probes tr) = length (reads tr) + 1.
Proof.
  induction 1 as [n id g Hg Hfile | n id g data tr Hg Hfile _ IH].
  - reflexivity.
  - cbn [probes reads flat_map page_events app length].
    fold (probes tr). fold (reads tr). lia.
Qed.

Lemma round_ok_scan (w : world) (fuel : nat) (l l' : locals)
  (st st' : state) :
  round fuel w l st = Ok (l', st') ->
  exists fo ff, scan fuel w fo ff 1 st = Ok st'.
Proof.
  unfold round.
  destruct (trace_file l) as [input|]; cbn [defined bind]; [|discriminate].
  destruct (fscanf_ss input (folder l) (file_format l))
    as [[[rest fo] ff]| |]; cbn [bind]; try discriminate.
  destruct (scan fuel w fo ff 1 st) as [st1| |] eqn:E; cbn [bind];
    try discriminate.
  destruct (zero_loop NAME 0 fo); cbn [defined bind]; [|discriminate].
  destruct (zero_loop NAME 0 ff); cbn [defined bind]; [|discriminate].
  intros H. apply Ok_inj in H. apply (f_equal snd) in H. cbn [snd] in H.
  subst st'. now exists fo, ff.
Qed.

Lemma rounds_ok_counts (w : world) (fuel : nat) (n : nat) :
  forall (l l' : locals) (st st' : state),
    rounds n fuel w l st = Ok (l', st') ->
    exists new,
      trace st' = trace st ++ new /\
      length (probes new) = length (reads new) + n.
Proof.
  induction n as [|n IH]; intros l l' st st' H.
  - apply Ok_inj in H. apply (f_equal snd) in H. cbn [snd] in H. subst st'.
    exists []. split; [now rewrite app_nil_r | reflexivity].
  - rewrite rounds_S in H.
    destruct (round fuel w l st) as [[l1 st1]| |] eqn:E; cbn [bind fst snd] in H;
      try discriminate.
    apply round_ok_scan in E as (fo & ff & E).
    apply scan_ok_events in E as (f & s & new1 & _ & _ & Htr1 & Hev).
    apply scan_events_counts in Hev.
    apply IH in H as (new2 & Htr2 & Hc).
    exists (new1 ++ new2). split.
    + now rewrite Htr2, Htr1, app_assoc.
    + rewrite probes_app, reads_app, !length_app. lia.
Qed.

(** In every world and for every manifest, a run that comes to its end has
    made its 400 rounds, each ending with exactly one [fopen] that fails:
    it has probed exactly 400 names more than it has read pages, and
    [main] has returned 0. *)
Theorem run_probes_400_more_than_it_reads (w : world) (fuel : nat)
  (status : Z) (st : state) :
  main fuel w = Ok (status, st) ->
  status = 0%Z /\
  length (probes (trace st)) = length (reads (trace st)) + 400.
Proof.
  unfold main.
  destruct (rounds 400 fuel w _ _) as [[l' st']| |] eqn:E; cbn [bind snd];
    try discriminate.
  intros H. apply Ok_inj in H. injection H as <- <-.
  split; [reflexivity|].
  apply rounds_ok_counts in E as (new & Htr & Hc).
  cbn [trace initial alloc app] in Htr. now rewrite Htr.
Qed.

Lemma run_probes_400_more_than_it_reads_witness :
  exists st,
    main 3 reused_world = Ok (0%Z, st) /\
    length (probes (trace st)) = length (reads (trace st)) + 400.
Proof.
  destruct (main 3 reused_world) as [[status st]| |] eqn:E.
  - destruct (run_probes_400_more_than_it_reads reused_world 3 status st E)
      as [-> Hc].
    exists st. split; [reflexivity | exact Hc].
  - vm_compute in E. discriminate E.
  - vm_compute in E. discriminate E.
Defined.

(** ** Distinct names, in any world *)

Lemma no_underscore_uint (d : Decimal.uint) :
  Forall (fun c => c <> "_"%char)
    (list_ascii_of_string (NilEmpty.string_of_uint d)).
Proof.
  induction d; simpl; constructor; try assumption; discriminate.
Qed.

Lemma no_underscore_decimal (n : Z) : ~ In "_"%char (decimal n).
Proof.
  assert (H : Forall (fun c => c <> "_"%char) (decimal n)).
  { unfold decimal. destruct (Z.to_int n) as [d|d]; simpl.
    - destruct d; try apply no_underscore_uint.
      simpl. constructor; [discriminate | constructor].
    - constructor; [discriminate|].
      destruct d; try apply no_underscore_uint.
      simpl. constructor; [discriminate | constructor]. }
  intros Hin. now apply (proj1 (Forall_forall _ _) H _ Hin).
Qed.

(** What follows the last occurrence of a byte in a string. *)
Lemma after_last (c : ascii) (x x' d d' : list ascii) :
  ~ In c d -> ~ In c d' -> x ++ c :: d = x' ++ c :: d' -> d = d'.
Proof.
  revert x'. induction x as [|a x IH]; intros x' Hd Hd' E.
  - destruct x' as [|a' x']; cbn [app] in E.
    + now injection E.
    + injection E as _ E. exfalso. apply Hd. rewrite E.
      apply in_or_app. right. now left.
  - destruct x' as [|a' x']; cbn [app] in E.
    + injection E as _ E. exfalso. apply Hd'. rewrite <- E.
      apply in_or_app. right. now left.
    + injection E as _ E. now apply (IH x').
Qed.

(** The number of a page can be read off its name, whatever comes before
    the name. *)
Lemma stale_page_name_inj (f s g g' : list ascii) (n m : Z) :
  g ++ page_name f s n = g' ++ page_name f s m -> n = m.
Proof.
  unfold page_name. intros E. apply decimal_inj.
  apply (after_last "_"%char (g ++ lit "./" ++ f ++ lit "/" ++ s)
           (g' ++ lit "./" ++ f ++ lit "/" ++ s)).
  - apply no_underscore_decimal.
  - apply no_underscore_decimal.
  - repeat rewrite <- app_assoc. exact E.
Qed.

Lemma numbered_from (f s : list ascii) (n : Z) (l : list (list ascii)) :
  numbered f s n l ->
  forall x, In x l -> exists g m, (n <= m)%Z /\ x = g ++ page_name f s m.
Proof.
  induction 1 as [n | n g l _ IH]; intros x Hx; [destruct Hx|].
  destruct Hx as [<-|Hx].
  - exists g, n. split; [lia | reflexivity].
  - destruct (IH x Hx) as (g' & m & Hm & E).
    exists g', m. split; [lia | assumption].
Qed.

Lemma numbered_NoDup (f s : list ascii) (n : Z) (l : list (list ascii)) :
  numbered f s n l -> NoDup l.
Proof.
  induction 1 as [n | n g l Hl IH]; constructor; [|exact IH].
  intros Hin. destruct (numbered_from f s (n + 1) l Hl _ Hin)
    as (g' & m & Hm & E).
  apply stale_page_name_inj in E. lia.
Qed.

Lemma scan_events_numbered (w : world) (f s : list ascii) (n : Z)
  (id : nat) (tr : list event) :
  scan_events w f s n id tr -> numbered f s n (map fst (probes tr)).
Proof.
  induction 1 as [n id g Hg Hfile | n id g data tr Hg Hfile _ IH].
  - cbn [probes flat_map app map fst].
    apply numbered_cons. apply numbered_nil.
  - cbn [probes flat_map page_events app map fst]. fold (probes tr).
    now apply numbered_cons.
Qed.

(** In every world, a scan that comes to its end has probed no name twice:
    the names built for the page numbers of a record are pairwise
    different, whatever string precedes them in [fname], because the
    numeral after the last underscore determines the number. *)
Theorem scan_probes_distinct_names (w : world) (folder file_format : buffer)
  (fuel : nat) (n : Z) (st st' : state) :
  scan fuel w folder file_format n st = Ok st' ->
  exists new, trace st' = trace st ++ new /\ NoDup (map fst (probes new)).
Proof.
  intros H.
  destruct (scan_ok_events w folder file_format fuel n st st' H)
    as (f & s & new & _ & _ & Htr & Hev).
  exists new. split; [assumption|].
  eapply numbered_NoDup, scan_events_numbered, Hev.
Qed.

Lemma scan_probes_distinct_names_witness :
  exists st' new,
    scan 3 gap_world (block_of (lit "d")) (block_of (lit "s")) 1 initial
      = Ok st' /\
    trace st' = trace initial ++ new /\ NoDup (map fst (probes new)).
Proof.
  destruct (scan 3 gap_world (block_of (lit "d")) (block_of (lit "s")) 1
              initial) as [st'| |] eqn:E.
  - destruct (scan_probes_distinct_names gap_world (block_of (lit "d"))
                (block_of (lit "s")) 3 1 initial st' E) as (new & H).
    now exists st', new.
  - vm_compute in E. discriminate E.
  - vm_compute in E. discriminate E.
Defined.

(** ** A folder without stem, in any world *)

(** A manifest that ends after a folder, without stem: in every world, a
    round that reads it and comes to its end has stored the folder, left
    the block of the stem with the empty string it held, and scanned the
    record of that folder and the empty stem, with the names
    [./folder/_1], [./folder/_2], ... after whatever [malloc] left in
    [fname]; the stream is at its end. *)
Theorem lone_folder_is_scanned (w : world) (fuel : nat) (l l' : locals)
  (st st' : state) (ws f ws' : list ascii) :
  trace_file l = Some (ws ++ f ++ ws') ->
  gap ws -> word f -> gap ws' ->
  length (folder l) = NAME ->
  cstr (file_format l) = Some [] ->
  round fuel w l st = Ok (l', st') ->
  trace_file l' = Some [] /\
  exists new,
    trace st' = trace st ++ new /\
    scan_events w f [] 1 (nalloc st) new.
Proof.
  intros Etf Hws Hf Hws' Hlo Hcff H.
  destruct (fscanf_ss_lone ws f ws' (folder l) (file_format l)
              Hws Hf Hws' Hlo) as (fo' & E & Hcfo & Hlfo').
  unfold round in H. rewrite Etf in H. cbn [defined bind] in H.
  rewrite E in H. cbn [bind] in H.
  destruct (scan fuel w fo' (file_format l) 1 st) as [st1| |] eqn:Es;
    cbn [bind] in H; try discriminate.
  destruct (zero_loop NAME 0 fo'); cbn [defined bind] in H; [|discriminate].
  destruct (zero_loop NAME 0 (file_format l)); cbn [defined bind] in H;
    [|discriminate].
  apply Ok_inj in H. injection H as <- <-.
  split; [reflexivity|].
  destruct (scan_ok w fo' (file_format l) f [] Hcfo Hcff fuel 1 st st1 Es)
    as (new & blocks & Htr & Hev & _).
  now exists new.
Qed.

Lemma lone_folder_is_scanned_witness :
  exists l' st',
    round 1 reused_world
      {| trace_file := Some ([] ++ lit "lonely" ++ []);
         folder := malloc reused_world 0 NAME;
         file_format := malloc reused_world 1 NAME |} (alloc (alloc initial))
    = Ok (l', st') /\
    trace_file l' = Some [] /\
    exists new,
      trace st' = trace (alloc (alloc initial)) ++ new /\
      scan_events reused_world (lit "lonely") [] 1
        (nalloc (alloc (alloc initial))) new.
Proof.
  destruct (round 1 reused_world
              {| trace_file := Some ([] ++ lit "lonely" ++ []);
                 folder := malloc reused_world 0 NAME;
                 file_format := malloc reused_world 1 NAME |}
              (alloc (alloc initial))) as [[l' st']| |] eqn:E.
  - exists l', st'. split; [reflexivity|].
    apply (lone_folder_is_scanned reused_world 1
             {| trace_file := Some ([] ++ lit "lonely" ++ []);
                folder := malloc reused_world 0 NAME;
                file_format := malloc reused_world 1 NAME |}
             l' (alloc (alloc initial)) st' [] (lit "lonely") []).
    + reflexivity.
    + constructor.
    + word_tac.
    + constructor.
    + reflexivity.
    + reflexivity.
    + exact E.
  - vm_compute in E. discriminate E.
  - vm_compute in E. discriminate E.
Defined.

(** ** More records than rounds *)

(** Of a manifest with more than 400 records the 400 rounds scan the first
    400, in order, and leave the stream standing before the 401st: the
    records after the 400th are never read.  (For blocks that [malloc]
    returns with a zero in front and records that are scanned to the end
    of their pages with names that fit.) *)
Theorem only_400_records_are_read (w : world) (fuel : nat)
  (input : list ascii) (jobs : list job)
  (more : list (list ascii * list ascii)) :
  clean w ->
  manifest w = Some input ->
  holds_records input (map fst jobs ++ more) ->
  length jobs = 400 ->
  Forall (good w fuel) jobs ->
  exists l' st rest,
    rounds 400 fuel w
      {| trace_file := manifest w;
         folder := malloc w 0 NAME;
         file_format := malloc w 1 NAME |} (alloc (alloc initial))
    = Ok (l', st) /\
    trace_file l' = Some rest /\ holds_records rest more /\
    trace st = jobs_trace w jobs 2 /\
    main fuel w = Ok (0%Z, st).
Proof.
  intros Hw Hm Hin Hlen Hjobs.
  destruct (rounds_records_more w fuel jobs more Hw Hjobs
              {| trace_file := manifest w;
                 folder := malloc w 0 NAME;
                 file_format := malloc w 1 NAME |} (alloc (alloc initial)))
    as (l1 & E1 & (rest & Hrest & Hholds & _)).
  { exists input. cbn [trace_file folder file_format].
    repeat split; auto using clean_malloc, length_malloc. }
  rewrite Hlen in E1.
  exists l1, (run_jobs w jobs (alloc (alloc initial))), rest.
  split; [exact E1|]. split; [exact Hrest|]. split; [exact Hholds|].
  split; [now rewrite run_jobs_trace|].
  unfold main. rewrite E1. reflexivity.
Qed.

Lemma only_400_records_are_read_witness :
  exists l' st rest,
    rounds 400 1 long_world
      {| trace_file := manifest long_world;
         folder := malloc long_world 0 NAME;
         file_format := malloc long_world 1 NAME |} (alloc (alloc initial))
    = Ok (l', st) /\
    trace_file l' = Some rest /\
    holds_records rest [(lit "d", lit "s")] /\
    trace st = jobs_trace long_world (repeat ((lit "d", lit "s"), []) 400) 2 /\
    main 1 long_world = Ok (0%Z, st).
Proof.
  apply (only_400_records_are_read long_world 1 (lines 401)
           (repeat ((lit "d", lit "s"), []) 400) [(lit "d", lit "s")]).
  - apply clean_zeroed.
  - reflexivity.
  - exact (holds_lines 401 [] (Forall_nil _)).
  - apply repeat_length.
  - apply Forall_forall. intros j Hj. apply repeat_spec in Hj. subst j.
    split.
    + cbn [pages_from fst snd]. split; [fits_tac | reflexivity].
    + cbn [snd length]. lia.
Defined.

(** ** Runs with a reused block *)

(** Pages 1 and 2 of the record exist; one page is read. *)
Example reused_run : summary (main 3 reused_world) = Some (0%Z, 1, 401).
Proof. vm_compute. reflexivity. Qed.

(** The first record does not fit [fname]: the record [d s] after it is
    not reached. *)
Example oversized_run : main 3 oversized_world = Undefined.
Proof. vm_compute. reflexivity. Qed.

(** ** The rounds of a run that has come to its end *)

Lemma round_ok_record (w : world) (fuel : nat) (l l' : locals)
  (st st' : state) (input f s : list ascii)
  (rs : list (list ascii * list ascii)) :
  trace_file l = Some input ->
  holds_records input ((f, s) :: rs) ->
  length (folder l) = NAME -> length (file_format l) = NAME ->
  (s = [] -> cstr (file_format l) = Some []) ->
  round fuel w l st = Ok (l', st') ->
  ready l' rs /\
  exists new,
    trace st' = trace st ++ new /\ scan_events w f s 1 (nalloc st) new.
Proof.
  intros Etf Hin Hlo Hlf Hstem H.
  unfold round in H. rewrite Etf in H. cbn [defined bind] in H.
  inversion Hin as [|ws f' ws' Hws Hf Hws'
                    |ws f' sep s' rest rs' Hws Hf Hsep Hsepne Hs Hrest Hrs];
    subst.
  - destruct (fscanf_ss_lone ws f ws' (folder l) (file_format l)
                Hws Hf Hws' Hlo) as (fo' & E & Hcfo & Hlfo').
    rewrite E in H. cbn [bind] in H.
    destruct (scan fuel w fo' (file_format l) 1 st) as [st1| |] eqn:Es;
      cbn [bind] in H; try discriminate.
    rewrite !zero_loop_all in H by assumption. cbn [defined bind] in H.
    apply Ok_inj in H. injection H as <- <-.
    split; [apply ready_zeroed, holds_none; constructor|].
    destruct (scan_ok w fo' (file_format l) f [] Hcfo (Hstem eq_refl)
                fuel 1 st st1 Es) as (new & blocks & Htr & Hev & _).
    now exists new.
  - destruct (fscanf_ss_record ws f sep s rest (folder l) (file_format l)
                Hws Hf Hsep Hsepne Hs Hrest Hlo Hlf)
      as (fo' & ff' & E & Hcfo & Hlfo' & Hcff & Hlff').
    rewrite E in H. cbn [bind] in H.
    destruct (scan fuel w fo' ff' 1 st) as [st1| |] eqn:Es;
      cbn [bind] in H; try discriminate.
    rewrite !zero_loop_all in H by assumption. cbn [defined bind] in H.
    apply Ok_inj in H. injection H as <- <-.
    split; [now apply ready_zeroed|].
    destruct (scan_ok w fo' ff' f s Hcfo Hcff fuel 1 st st1 Es)
      as (new & blocks & Htr & Hev & _).
    now exists new.
Qed.

Lemma round_ok_blank (w : world) (fuel : nat) (l l' : locals)
  (st st' : state) :
  ready l [] ->
  round fuel w l st = Ok (l', st') ->
  ready l' [] /\
  exists new,
    trace st' = trace st ++ new /\ scan_events w [] [] 1 (nalloc st) new.
Proof.
  intros (input & Etf & Hin & Hcfo & Hlfo & Hcff & Hlff) H.
  unfold round in H. rewrite Etf in H. cbn [defined bind] in H.
  rewrite fscanf_ss_holds_nil in H by assumption. cbn [bind] in H.
  destruct (scan fuel w (folder l) (file_format l) 1 st) as [st1| |] eqn:Es;
    cbn [bind] in H; try discriminate.
  rewrite !zero_loop_all in H by assumption. cbn [defined bind] in H.
  apply Ok_inj in H. injection H as <- <-.
  split; [apply ready_zeroed, holds_none; constructor|].
  destruct (scan_ok w (folder l) (file_format l) [] [] Hcfo Hcff
              fuel 1 st st1 Es) as (new & blocks & Htr & Hev & _).
  now exists new.
Qed.

Lemma rounds_ok_scanned (w : world) (fuel : nat) (n : nat) :
  forall (rs : list (list ascii * list ascii)) (l l' : locals)
         (st st' : state),
    ready l rs -> length rs <= n ->
    rounds n fuel w l st = Ok (l', st') ->
    exists trs,
      trace st' = trace st ++ concat trs /\
      rounds_scanned w (rs ++ repeat ([], []) (n - length rs)) trs.
Proof.
  induction n as [|n IH]; intros rs l l' st st' Hl Hlen H.
  - destruct rs; [|cbn [length] in Hlen; lia].
    apply Ok_inj in H. apply (f_equal snd) in H. cbn [snd] in H. subst st'.
    exists []. split; [now rewrite app_nil_r | constructor].
  - rewrite rounds_S in H.
    destruct (round fuel w l st) as [[l1 st1]| |] eqn:E;
      cbn [bind fst snd] in H; try discriminate.
    destruct rs as [|[f s] rs].
    + destruct (round_ok_blank w fuel l l1 st st1 Hl E)
        as (Hl1 & new & Htr & Hev).
      destruct (IH [] l1 l' st1 st' Hl1 (Nat.le_0_l _) H)
        as (trs & Htrs & Hall).
      exists (new :: trs). split.
      * cbn [concat]. now rewrite Htrs, Htr, app_assoc.
      * cbn [length app] in *. rewrite Nat.sub_0_r in *. cbn [repeat].
        constructor; [now exists (nalloc st) | exact Hall].
    + destruct Hl as (input & Etf & Hin & Hcfo & Hlfo & Hcff & Hlff).
      destruct (round_ok_record w fuel l l1 st st1 input f s rs
                  Etf Hin Hlfo Hlff (fun _ => Hcff) E)
        as (Hl1 & new & Htr & Hev).
      cbn [length] in Hlen.
      destruct (IH rs l1 l' st1 st' Hl1 ltac:(lia) H) as (trs & Htrs & Hall).
      exists (new :: trs). split.
      * cbn [concat]. now rewrite Htrs, Htr, app_assoc.
      * cbn [length app Nat.sub].
        constructor; [now exists (nalloc st) | exact Hall].
Qed.

Lemma bind_ok (A B : Type) (r : result A) (k : A -> result B) (b : B) :
  bind r k = Ok b -> exists a, r = Ok a /\ k a = Ok b.
Proof.
  destruct r as [a| |]; cbn [bind]; try discriminate.
  intros H. now exists a.
Qed.

(** C2, as the program has it.  On a manifest of n records, 1 <= n <= 400,
    the first with a stem, a run that comes to its end has made all the
    400 rounds of the outer loop, in every world: the first n rounds have
    scanned the n records in the order of the manifest, and each of the
    400 - n rounds that remain has scanned the record of two empty fields.
    No round is skipped, and [main] has returned 0. *)
Theorem every_round_scans_a_record (w : world) (fuel : nat)
  (input f s : list ascii) (rs : list (list ascii * list ascii))
  (status : Z) (st : state) :
  manifest w = Some input ->
  holds_records input ((f, s) :: rs) ->
  s <> [] ->
  length ((f, s) :: rs) <= 400 ->
  main fuel w = Ok (status, st) ->
  status = 0%Z /\
  exists trs,
    trace st = concat trs /\
    length trs = 400 /\
    rounds_scanned w
      (((f, s) :: rs) ++ repeat ([], []) (400 - length ((f, s) :: rs))) trs.
Proof.
  intros Hm Hin Hs Hlen H. unfold main in H.
  apply bind_ok in H as ([l2 st2] & E & H). cbn [snd] in H.
  apply Ok_inj in H. injection H as <- <-.
  rewrite (rounds_S 399) in E.
  apply bind_ok in E as ([l1 st1] & E1 & E2). cbn [fst snd] in E2.
  split; [reflexivity|].
  destruct (round_ok_record w fuel
              {| trace_file := manifest w;
                 folder := malloc w 0 NAME;
                 file_format := malloc w 1 NAME |}
              l1 (alloc (alloc initial)) st1 input f s rs Hm Hin
              (length_malloc w 0 NAME) (length_malloc w 1 NAME)
              (fun E => False_ind _ (Hs E)) E1)
    as (Hl1 & new & Htr & Hev).
  cbn [length] in Hlen.
  destruct (rounds_ok_scanned w fuel 399 rs l1 l2 st1 st2 Hl1
              ltac:(lia) E2) as (trs & Htrs & Hall).
  exists (new :: trs).
  assert (Hscanned : rounds_scanned w
            (((f, s) :: rs) ++ repeat ([], []) (400 - length ((f, s) :: rs)))
            (new :: trs)).
  { cbn [length app].
    replace (400 - S (length rs)) with (399 - length rs) by lia.
    constructor; [now exists (nalloc (alloc (alloc initial))) | exact Hall]. }
  split; [|split; [|exact Hscanned]].
  - cbn [concat]. rewrite Htrs, Htr. reflexivity.
  - apply Forall2_length in Hscanned. rewrite <- Hscanned.
    rewrite length_app, repeat_length. cbn [length]. lia.
Qed.

Lemma every_round_scans_a_record_witness :
  exists st trs,
    main 3 reused_world = Ok (0%Z, st) /\
    trace st = concat trs /\
    length trs = 400 /\
    rounds_scanned reused_world
      (((lit "d", lit "s") :: [])
       ++ repeat ([], []) (400 - length [(lit "d", lit "s")])) trs.
Proof.
  destruct (main 3 reused_world) as [[status st]| |] eqn:E.
  - destruct (every_round_scans_a_record reused_world 3 (lit "d s" ++ [LF])
                (lit "d") (lit "s") [] status st eq_refl holds_d_s)
      as (-> & trs & H); [discriminate | cbn [length]; lia | exact E |].
    exists st, trs. split; [reflexivity | exact H].
  - vm_compute in E. discriminate E.
  - vm_compute in E. discriminate E.
Defined.
